(** * Knowledge-base retrieval core of the kb-ai-service

    A shallow embedding of the retrieval pipeline of [app/services]:
    - [embedding_service.py]: [chunk_text], [compute_similarity],
      [_clean_text], [generate_embedding];
    - [search_service.py]: [_build_filter_conditions], [_generate_snippet],
      [index_article], [delete_article], [search_similar],
      [search_articles];
    - [ai_service.py]: [_calculate_confidence], [_parse_answer_response],
      [answer_question], [_build_context], [_parse_keywords_response],
      [generate_article_summary], [suggest_keywords], [improve_content];
    - [api/search.py]: the endpoints over the search service.

    Conventions of the embedding.
    - A Python [str] is a list of 8-bit characters (code points 0..255, the
      Latin-1 range), on which [str.lower] maps character by character.
    - Python integers are [Z]; list and string indices follow Python's
      rules for negative and out-of-range values.
    - Relevance scores and confidences are exact rationals ([Q]): binary64
      rounding is outside the model.  Embedding vectors keep binary64
      ([PrimFloat]), because [compute_similarity] tests a square root
      against zero.
    - A raised exception is the [Raise] result; the external collaborators
      (embedding model, vector index, generation endpoint) are Section
      variables, and the vector index's content is explicit state; a
      write is applied or refused by the index, which the service does not
      decide.
    - The [while] loop of [chunk_text] runs on fuel: [None] stands for a
      run that has not left the loop within the given number of passes. *)

From Stdlib Require Import ZArith List Ascii String QArith Qminmax Lqa Lia Bool Floats.
From stdpp Require Import base list strings gmap pretty.
Import ListNotations.

Open Scope Z_scope.

(** ** Python strings *)

Module Py.

Abbreviation pystr := (list ascii).

(** A string literal of the source. *)
Definition lit (s : string) : pystr := list_ascii_of_string s.

(** [len(x)] *)
Definition len {A} (l : list A) : Z := Z.of_nat (length l).

Definition code (c : ascii) : Z := Z.of_nat (nat_of_ascii c).

(** [str.isspace] on one character of the Latin-1 range: TAB, LF, VT, FF,
    CR, the separators FS, GS, RS, US, the space, NEL and the no-break
    space. *)
Definition isspace (c : ascii) : bool :=
  let n := code c in
  ((9 <=? n) && (n <=? 13)) || ((28 <=? n) && (n <=? 32))
  || (n =? 133) || (n =? 160).

(** [str.lower] on one character of the Latin-1 range: A..Z, and the
    accented capitals 0xC0..0xDE except the multiplication sign 0xD7. *)
Definition lower_char (c : ascii) : ascii :=
  let n := code c in
  if ((65 <=? n) && (n <=? 90))
     || ((192 <=? n) && (n <=? 222) && negb (n =? 215))
  then ascii_of_nat (Z.to_nat (n + 32)) else c.

Definition lower (s : pystr) : pystr := map lower_char s.

(** Index clipping of slices and of the [start], [end] arguments of
    [find] and [rfind]: a negative index counts from the end, and the
    result is clipped to [0, n]. *)
Definition norm_index (n i : Z) : Z :=
  if i <? 0 then Z.max 0 (i + n) else Z.min i n.

(** [s[start:stop]] *)
Definition slice {A} (s : list A) (start stop : Z) : list A :=
  let a := norm_index (len s) start in
  let b := norm_index (len s) stop in
  take (Z.to_nat (b - a)) (drop (Z.to_nat a) s).

(** [s[:stop]] *)
Definition slice_to {A} (s : list A) (stop : Z) : list A := slice s 0 stop.

Fixpoint lstrip (s : pystr) : pystr :=
  match s with
  | c :: s' => if isspace c then lstrip s' else s
  | [] => []
  end.

Definition rstrip (s : pystr) : pystr := rev (lstrip (rev s)).

(** [s.strip()] *)
Definition strip (s : pystr) : pystr := rstrip (lstrip s).

(** [s.startswith(p)] *)
Fixpoint startswith (s p : pystr) {struct p} : bool :=
  match p, s with
  | [], _ => true
  | a :: p', b :: s' => Ascii.eqb a b && startswith s' p'
  | _ :: _, [] => false
  end.

(** First index, counted from [i], at which [sub] starts in [s]; -1 when
    there is none. *)
Fixpoint find_from (s sub : pystr) (i : Z) : Z :=
  if startswith s sub then i
  else match s with
       | [] => -1
       | _ :: s' => find_from s' sub (i + 1)
       end.

(** [s.find(sub)] *)
Definition find (s sub : pystr) : Z := find_from s sub 0.

(** [sub in s] *)
Definition contains (s sub : pystr) : bool := 0 <=? find s sub.

(** Last index, counted from [i], at which [sub] starts in [s]; -1 when
    there is none. *)
Fixpoint rfind_from (s sub : pystr) (i : Z) : Z :=
  match s with
  | [] => if startswith s sub then i else -1
  | _ :: s' =>
      let r := rfind_from s' sub (i + 1) in
      if 0 <=? r then r else if startswith s sub then i else -1
  end.

(** [s.rfind(sub, start, stop)]: the match lies inside the clipped window
    [s[start:stop]]. *)
Definition rfind (s sub : pystr) (start stop : Z) : Z :=
  let a := norm_index (len s) start in
  let b := norm_index (len s) stop in
  if b <? a then -1 else rfind_from (slice s start stop) sub a.

(** [sep.join(parts)] *)
Fixpoint join (sep : pystr) (parts : list pystr) : pystr :=
  match parts with
  | [] => []
  | [p] => p
  | p :: rest => p ++ sep ++ join sep rest
  end.

(** [s.split()]: the maximal runs of non-whitespace characters; [cur]
    holds the run being read, last character first. *)
Fixpoint split_from (s cur : pystr) : list pystr :=
  match s with
  | [] => match cur with [] => [] | _ :: _ => [rev cur] end
  | c :: s' =>
      if isspace c
      then match cur with
           | [] => split_from s' []
           | _ :: _ => rev cur :: split_from s' []
           end
      else split_from s' (c :: cur)
  end.

Definition split (s : pystr) : list pystr := split_from s [].

(** The line feed. *)
Definition nl : pystr := ["010"%char].

(** [str(n)] on a length. *)
Definition str_of_nat (n : nat) : pystr := lit (pretty n).

(** A string that does not start with whitespace. *)
Definition no_lead (s : pystr) : Prop :=
  match s with
  | c :: _ => isspace c = false
  | [] => True
  end.

(** Truthiness of a sequence: [if s:] *)
Definition truthy {A} (l : list A) : bool :=
  match l with [] => false | _ :: _ => true end.

(** Truthiness of an optional sequence: [None] and the empty one are
    falsy. *)
Definition truthy_opt {A} (o : option (list A)) : bool :=
  match o with
  | Some l => truthy l
  | None => false
  end.

(** [x or default] on an optional integer: [None] and 0 are falsy. *)
Definition int_or (x : option Z) (default : Z) : Z :=
  match x with
  | Some v => if v =? 0 then default else v
  | None => default
  end.

End Py.

Import Py.

(** ** Configuration ([app/core/config.py]) *)

Record Settings := {
  EMBEDDING_DIMENSION : Z;
  MAX_CONTENT_LENGTH : Z;
  CHUNK_SIZE : Z;
  CHUNK_OVERLAP : Z;
  MAX_SEARCH_RESULTS : Z;
  MIN_SEARCH_SCORE : Q
}.

Definition settings : Settings := {|
  EMBEDDING_DIMENSION := 384;
  MAX_CONTENT_LENGTH := 8000;
  CHUNK_SIZE := 512;
  CHUNK_OVERLAP := 50;
  MAX_SEARCH_RESULTS := 50;
  MIN_SEARCH_SCORE := (1 # 10)%Q
|}.

(** ** TextChunker: [EmbeddingService.chunk_text] *)

Module Chunker.

(** The variables of the [while] loop. *)
Record LoopState := { start : Z; chunks : list pystr }.

(** The [end] of the window opened at [start]: [start + chunk_size],
    pulled back to the last space of the window when the window stops
    before the end of the text and that space lies after [start]. *)
Definition window_end (text : pystr) (chunk_size start : Z) : Z :=
  let e := start + chunk_size in
  if e <? len text then
    let last_space := rfind text (lit " ") start e in
    if last_space >? start then last_space else e
  else e.

(** One pass through the loop body, up to the assignment of [start]. *)
Definition body (text : pystr) (chunk_size overlap : Z) (st : LoopState)
  : LoopState :=
  let e := window_end text chunk_size (start st) in
  let chunk := strip (slice text (start st) e) in
  {| start := e - overlap;
     chunks := if truthy chunk then chunks st ++ [chunk] else chunks st |}.

(** The [while] loop; [None] when [fuel] passes do not reach its exit. *)
Fixpoint loop (fuel : nat) (text : pystr) (chunk_size overlap : Z)
  (st : LoopState) : option (list pystr) :=
  match fuel with
  | O => None
  | S fuel' =>
      if start st <? len text then
        let st' := body text chunk_size overlap st in
        if start st' >=? len text then Some (chunks st')
        else loop fuel' text chunk_size overlap st'
      else Some (chunks st)
  end.

(** [chunk_text(text, chunk_size, overlap)] under the configuration [cfg]. *)
Definition chunk_text (fuel : nat) (cfg : Settings) (text : pystr)
  (chunk_size overlap : option Z) : option (list pystr) :=
  let chunk_size := int_or chunk_size (CHUNK_SIZE cfg) in
  let overlap := int_or overlap (CHUNK_OVERLAP cfg) in
  if len text <=? chunk_size then Some [text]
  else loop fuel text chunk_size overlap {| start := 0; chunks := [] |}.

(** The cursor values the loop passes through on [text]. *)
Inductive cursor_reach (text : pystr) (chunk_size overlap : Z) : Z -> Prop :=
| reach_init : cursor_reach text chunk_size overlap 0
| reach_step s :
    cursor_reach text chunk_size overlap s ->
    s < len text ->
    cursor_reach text chunk_size overlap
      (window_end text chunk_size s - overlap).

(** Position [i] of [text] lies inside one of [chunks]: some chunk is the
    slice of [text] that starts at an offset [p] at or before [i] and ends
    after [i]. *)
Definition covers (text : pystr) (chunks : list pystr) (i : nat) : Prop :=
  exists ch p,
    In ch chunks /\ 0 <= p <= Z.of_nat i /\ Z.of_nat i < p + len ch
    /\ slice text p (p + len ch) = ch.

End Chunker.


(** ** Values, exceptions and results *)

#[local] Set Warnings "-register-all".

(** The JSON-like values a payload or a metadata dictionary holds. *)
Inductive PyVal :=
| VNone
| VBool (b : bool)
| VInt (z : Z)
| VNum (q : Q)
| VStr (s : pystr)
| VList (l : list PyVal).

Inductive exn :=
| RuntimeError (msg : pystr)
| KeyError (key : string)
| TypeError
| ValueError
| ProviderError.

Inductive result (A : Type) :=
| Ok (a : A)
| Raise (e : exn).

Arguments Ok {A} a.
Arguments Raise {A} e.

(** [d[k]] *)
Definition getitem (d : gmap string PyVal) (k : string) : result PyVal :=
  match d !! k with
  | Some v => Ok v
  | None => Raise (KeyError k)
  end.

(** [d.get(k)] *)
Definition get (d : gmap string PyVal) (k : string) : option PyVal := d !! k.

(** [d.get(k, default)] *)
Definition get_default (d : gmap string PyVal) (k : string) (default : PyVal)
  : PyVal :=
  match d !! k with
  | Some v => v
  | None => default
  end.

(** [{**base, **extra}]: the keys of [extra] replace those of [base]. *)
Definition dict_unpack (base extra : gmap string PyVal) : gmap string PyVal :=
  extra ∪ base.

(** A value used where the code needs a [str]. *)
Definition as_str (v : PyVal) : result pystr :=
  match v with
  | VStr s => Ok s
  | _ => Raise TypeError
  end.

(** ** VectorSimilarity: [EmbeddingService.compute_similarity] *)

Module Similarity.

(** [np.dot] on two one-dimensional arrays, summed from the left; arrays
    of different lengths raise [ValueError]. *)
Definition np_dot (v1 v2 : list float) : result float :=
  if (length v1 =? length v2)%nat
  then Ok (fold_left (fun acc xy => (acc + fst xy * snd xy)%float)
                     (combine v1 v2) 0%float)
  else Raise ValueError.

(** [np.linalg.norm] of a one-dimensional array. *)
Definition np_linalg_norm (v : list float) : float :=
  PrimFloat.sqrt (fold_left (fun acc x => (acc + x * x)%float) v 0%float).

Definition compute_similarity (embedding1 embedding2 : list float)
  : result float :=
  match np_dot embedding1 embedding2 with
  | Raise e => Raise e
  | Ok dot_product =>
      let norm1 := np_linalg_norm embedding1 in
      let norm2 := np_linalg_norm embedding2 in
      if (norm1 =? 0)%float || (norm2 =? 0)%float then Ok 0%float
      else
        let similarity := (dot_product / (norm1 * norm2))%float in
        Ok similarity
  end.

End Similarity.

(** ** Requests and results ([app.models]) *)

(** Modelled from the spec: [app.models.SimilarityRequest] is not among the
    sources; the fields are those [search_similar] reads. *)
Record SimilarityRequest := {
  sim_text : pystr;
  sim_tenant_id : pystr;
  sim_project_id : pystr;
  sim_limit : Z;
  sim_threshold : option Q
}.

(** Modelled from the spec: [app.models.KBSearchRequest] is not among the
    sources; the fields are those [search_articles] and
    [_build_filter_conditions] read. *)
Record KBSearchRequest := {
  query : pystr;
  tenant_id : pystr;
  project_id : pystr;
  public_only : bool;
  status : option (list pystr);
  tags : option (list pystr);
  limit : Z;
  offset : Z
}.

(** Modelled from the spec: [app.models.SimilarityResult] is not among the
    sources; the fields are the keyword arguments of its construction in
    [search_similar]. *)
Record SimilarityResult := {
  sr_id : string;
  sr_title : PyVal;
  sr_content : PyVal;
  sr_score : Q;
  sr_type : pystr
}.

(** Modelled from the spec: [app.models.KBSearchResult] (the spec's
    RetrievedArticle) is not among the sources; the fields are the keyword
    arguments of its construction in [search_articles], with [title] and
    [content] strings as [ai_service.py] uses them. *)
Record KBSearchResult := {
  kb_id : string;
  kb_type : pystr;
  title : pystr;
  content : pystr;
  summary : option PyVal;
  score : Q;
  rank : Z;
  snippet : pystr;
  kb_tags : PyVal;
  keywords : PyVal;
  category_name : option PyVal;
  author_name : option PyVal;
  view_count : PyVal;
  helpful_count : PyVal;
  created_at : PyVal;
  updated_at : PyVal;
  published_at : option PyVal
}.

(** Modelled from the spec: [app.models.AnswerResponse] (the spec's Answer)
    is not among the sources; the fields are the keyword arguments of its
    construction in [ai_service.py]. *)
Record AnswerResponse := {
  question : pystr;
  answer : pystr;
  confidence : Q;
  sources : list KBSearchResult;
  has_answer : bool;
  suggestions : list pystr;
  reasoning : pystr
}.

(** An article with the given title, content and score, its other fields
    empty; used for the concrete instances below. *)
Definition article (title_ content_ : pystr) (score_ : Q) : KBSearchResult :=
  {| kb_id := "";
     kb_type := lit "article";
     title := title_;
     content := content_;
     summary := None;
     score := score_;
     rank := 1;
     snippet := [];
     kb_tags := VList [];
     keywords := VList [];
     category_name := None;
     author_name := None;
     view_count := VInt 0;
     helpful_count := VInt 0;
     created_at := VNone;
     updated_at := VNone;
     published_at := None |}.

(** ** FilterBuilder and SnippetExtractor ([search_service.py]) *)

Module Search.

(** The part of [qdrant_client.http.models] the service builds. *)
Inductive Match :=
| MatchValue (value : PyVal)
| MatchAny (any : list pystr).

Record FieldCondition := { key : string; match_ : Match }.

(** [models.Filter]: [must] is a conjunction, [should] a disjunction and
    [must_not] a negation; an absent clause is [None]. *)
Record Filter := {
  must : option (list FieldCondition);
  should : option (list FieldCondition);
  must_not : option (list FieldCondition)
}.

(** [str(x)] on a string. *)
Definition str (x : pystr) : pystr := x.

Definition any_of {A} (o : option (list A)) : list A :=
  match o with
  | Some l => l
  | None => []
  end.

Definition _build_filter_conditions (tenant_id project_id : pystr)
  (request : option KBSearchRequest) : Filter :=
  let conditions :=
    [ {| key := "tenant_id"; match_ := MatchValue (VStr (str tenant_id)) |};
      {| key := "project_id"; match_ := MatchValue (VStr (str project_id)) |} ]
  in
  let conditions :=
    match request with
    | Some request =>
        let conditions :=
          if public_only request
          then conditions ++
               [ {| key := "is_public"; match_ := MatchValue (VBool true) |} ]
          else conditions in
        let conditions :=
          if truthy_opt (status request)
          then conditions ++
               [ {| key := "status";
                    match_ := MatchAny (any_of (status request)) |} ]
          else conditions in
        let conditions :=
          if truthy_opt (tags request)
          then conditions ++
               [ {| key := "tags";
                    match_ := MatchAny (any_of (tags request)) |} ]
          else conditions in
        conditions
    | None => conditions
    end in
  {| must := Some conditions; should := None; must_not := None |}.

(** The two conditions every filter starts with, and the conditions a
    request adds, in the order the builder appends them. *)
Definition tenant_condition (t : pystr) : FieldCondition :=
  {| key := "tenant_id"; match_ := MatchValue (VStr t) |}.

Definition project_condition (p : pystr) : FieldCondition :=
  {| key := "project_id"; match_ := MatchValue (VStr p) |}.

Definition optional_conditions (request : option KBSearchRequest)
  : list FieldCondition :=
  match request with
  | None => []
  | Some r =>
      (if public_only r
       then [ {| key := "is_public"; match_ := MatchValue (VBool true) |} ]
       else [])
      ++ match status r with
         | Some (x :: xs) =>
             [ {| key := "status"; match_ := MatchAny (x :: xs) |} ]
         | _ => []
         end
      ++ match tags r with
         | Some (x :: xs) =>
             [ {| key := "tags"; match_ := MatchAny (x :: xs) |} ]
         | _ => []
         end
  end.

(** [content[:max_length] + "..." if len(content) > max_length else content] *)
Definition leading (content : pystr) (max_length : Z) : pystr :=
  if len content >? max_length
  then slice_to content max_length ++ lit "..."
  else content.

Definition _generate_snippet (content query : pystr) (max_length : Z) : pystr :=
  if negb (truthy content) || negb (truthy query) then leading content max_length
  else
    let lower_content := lower content in
    let lower_query := lower query in
    let pos := find lower_content lower_query in
    if pos =? -1 then leading content max_length
    else
      let start := Z.max 0 (pos - max_length / 4) in
      let end_ := Z.min (len content) (start + max_length) in
      let snippet := slice content start end_ in
      let snippet := if start >? 0 then lit "..." ++ snippet else snippet in
      let snippet := if end_ <? len content then snippet ++ lit "..."
                     else snippet in
      snippet.

(** The default of the [max_length] argument. *)
Definition max_length_default : Z := 200.

End Search.

(** ** The vector index and the service monad *)

Module Index.

Import Search.

Record PointStruct := {
  id : string;
  vector : list float;
  payload : gmap string PyVal
}.

Record ScoredPoint := {
  sp_id : string;
  sp_score : Q;
  sp_payload : gmap string PyVal
}.

(** The keyword arguments of [qdrant_client.search]. *)
Record SearchArgs := {
  collection_name : pystr;
  query_vector : list float;
  query_filter : Filter;
  search_limit : Z;
  search_offset : option Z;
  score_threshold : option Q
}.

(** The calls the service makes on the client. *)
Inductive Request :=
| Upsert (collection : pystr) (points : list PointStruct)
| Delete (collection : pystr) (ids : list string)
| SearchCall (args : SearchArgs).

(** The collection [kb_articles] of the index, points keyed by id, and the
    calls received so far, oldest first. *)
Record Qdrant := {
  stored : gmap string PointStruct;
  received : list Request
}.

(** A computation of the service: it reads and updates the index and
    returns a value or raises. *)
Definition Svc (A : Type) : Type := Qdrant -> result A * Qdrant.

#[export] Instance svc_ret : MRet Svc := fun A a w => (Ok a, w).

#[export] Instance svc_bind : MBind Svc := fun A B f m w =>
  match m w with
  | (Ok a, w') => f a w'
  | (Raise e, w') => (Raise e, w')
  end.

Definition lift {A} (r : result A) : Svc A := fun w => (r, w).

Fixpoint upsert_points (points : list PointStruct)
  (m : gmap string PointStruct) : gmap string PointStruct :=
  match points with
  | [] => m
  | p :: rest => upsert_points rest (<[id p := p]> m)
  end.

Definition delete_points (ids : list string) (m : gmap string PointStruct)
  : gmap string PointStruct :=
  fold_left (fun acc i => delete i acc) ids m.

(** A write sent to the index.  The index receives the request; by
    [refused], its own answer, it either applies the write or raises and
    keeps its points as they are (an id that is neither an unsigned
    integer nor a UUID, a failure of the provider). *)
Definition write (refused : gmap string PointStruct -> Request -> option exn)
  (request : Request)
  (apply : gmap string PointStruct -> gmap string PointStruct) : Svc unit :=
  fun w =>
    match refused (stored w) request with
    | Some e => (Raise e, {| stored := stored w;
                             received := received w ++ [request] |})
    | None => (Ok tt, {| stored := apply (stored w);
                         received := received w ++ [request] |})
    end.

(** [qdrant_client.upsert] *)
Definition upsert (refused : gmap string PointStruct -> Request -> option exn)
  (collection : pystr) (points : list PointStruct) : Svc unit :=
  write refused (Upsert collection points) (upsert_points points).

(** [qdrant_client.delete] *)
Definition delete_ (refused : gmap string PointStruct -> Request -> option exn)
  (collection : pystr) (ids : list string) : Svc unit :=
  write refused (Delete collection ids) (delete_points ids).

End Index.

(** ** RetrievalOrchestrator ([search_service.py]) *)

Module SearchService.

Import Search Index.

Section Service.

(** [EmbeddingService.model]: the loaded encoder, if any. *)
Variable model : option (pystr -> list float).

(** The answer of the index to a search, given its content. *)
Variable nearest :
  gmap string PointStruct -> SearchArgs -> result (list ScoredPoint).

(** The answer of the index to a write, given its content: [None] when
    it applies the write, or the exception it raises. *)
Variable refused : gmap string PointStruct -> Request -> option exn.

Variable cfg : Settings.

Definition collection : pystr := lit "kb_articles".

(** [EmbeddingService._clean_text] *)
Definition _clean_text (text : pystr) : pystr :=
  if negb (truthy text) then []
  else
    let cleaned := join (lit " ") (split text) in
    if len cleaned >? MAX_CONTENT_LENGTH cfg
    then slice_to cleaned (MAX_CONTENT_LENGTH cfg)
    else cleaned.

(** [EmbeddingService.generate_embedding] *)
Definition generate_embedding (text : pystr) : result (list float) :=
  match model with
  | None => Raise (RuntimeError (lit "Embedding model not initialized"))
  | Some encode => Ok (encode (_clean_text text))
  end.

(** [qdrant_client.search] *)
Definition search (args : SearchArgs) : Svc (list ScoredPoint) :=
  fun w => (nearest (stored w) args,
            {| stored := stored w;
               received := received w ++ [SearchCall args] |}).

(** [for x in xs: results.append(f(x))], stopping at the first raise. *)
Fixpoint collect {A B} (f : A -> result B) (xs : list A) : result (list B) :=
  match xs with
  | [] => Ok []
  | x :: rest =>
      match f x with
      | Raise e => Raise e
      | Ok y => match collect f rest with
                | Raise e => Raise e
                | Ok ys => Ok (y :: ys)
                end
      end
  end.

Fixpoint enumerate {A} (i : Z) (xs : list A) : list (Z * A) :=
  match xs with
  | [] => []
  | x :: rest => (i, x) :: enumerate (i + 1) rest
  end.

Definition index_article (article_id : string) (title content : pystr)
  (metadata : gmap string PyVal) : Svc unit :=
  let text := title ++ nl ++ nl ++ content in
  embedding ← lift (generate_embedding text);
  let point :=
    {| id := article_id;
       vector := embedding;
       payload := dict_unpack
                    (<["content" := VStr content]>
                       (<["title" := VStr title]> ∅))
                    metadata |} in
  upsert refused collection [point].

Definition delete_article (article_id : string) : Svc unit :=
  delete_ refused collection [article_id].

Definition similarity_result (point : ScoredPoint) : result SimilarityResult :=
  match getitem (sp_payload point) "title" with
  | Raise e => Raise e
  | Ok t =>
      match getitem (sp_payload point) "content" with
      | Raise e => Raise e
      | Ok c => Ok {| sr_id := sp_id point;
                      sr_title := t;
                      sr_content := c;
                      sr_score := sp_score point;
                      sr_type := lit "article" |}
      end
  end.

Definition search_similar (request : SimilarityRequest)
  : Svc (list SimilarityResult) :=
  query_embedding ← lift (generate_embedding (sim_text request));
  let filter_conditions :=
    _build_filter_conditions (sim_tenant_id request) (sim_project_id request)
      None in
  search_result ← search {| collection_name := collection;
                            query_vector := query_embedding;
                            query_filter := filter_conditions;
                            search_limit := sim_limit request;
                            search_offset := None;
                            score_threshold := sim_threshold request |};
  lift (collect similarity_result search_result).

(** The body of the result loop of [search_articles] for the hit at
    position [i]. *)
Definition article_result (request : KBSearchRequest)
  (ip : Z * ScoredPoint) : result KBSearchResult :=
  let i := fst ip in
  let point := snd ip in
  let pl := sp_payload point in
  match getitem pl "content" with
  | Raise e => Raise e
  | Ok c =>
  match as_str c with
  | Raise e => Raise e
  | Ok content_ =>
  let snippet_ := _generate_snippet content_ (query request)
                    max_length_default in
  match getitem pl "title" with
  | Raise e => Raise e
  | Ok t =>
  match getitem pl "created_at" with
  | Raise e => Raise e
  | Ok created =>
  match getitem pl "updated_at" with
  | Raise e => Raise e
  | Ok updated =>
  match as_str t with
  | Raise e => Raise e
  | Ok title_ =>
      Ok {| kb_id := sp_id point;
            kb_type := lit "article";
            title := title_;
            content := content_;
            summary := get pl "summary";
            score := sp_score point;
            rank := offset request + i + 1;
            snippet := snippet_;
            kb_tags := get_default pl "tags" (VList []);
            keywords := get_default pl "keywords" (VList []);
            category_name := get pl "category_name";
            author_name := get pl "author_name";
            view_count := get_default pl "view_count" (VInt 0);
            helpful_count := get_default pl "helpful_count" (VInt 0);
            created_at := created;
            updated_at := updated;
            published_at := get pl "published_at" |}
  end end end end end end.

Definition search_articles (request : KBSearchRequest)
  : Svc (list KBSearchResult) :=
  query_embedding ← lift (generate_embedding (query request));
  let filter_conditions :=
    _build_filter_conditions (tenant_id request) (project_id request)
      (Some request) in
  search_result ← search {| collection_name := collection;
                            query_vector := query_embedding;
                            query_filter := filter_conditions;
                            search_limit := limit request;
                            search_offset := Some (offset request);
                            score_threshold := Some (MIN_SEARCH_SCORE cfg) |};
  lift (collect (article_result request) (enumerate 0 search_result)).

End Service.

End SearchService.

(** ** AnswerConfidenceScorer and the answer flow ([ai_service.py]) *)

Module AI.

Definition uncertainty_phrases : list pystr :=
  [ lit "i don't know"; lit "not sure"; lit "unclear"; lit "might be" ].

(** The [for phrase in uncertainty_phrases] loop, leaving at the first
    phrase found. *)
Fixpoint phrase_loop (phrases : list pystr) (response_lower : pystr)
  (confidence : Q) : Q :=
  match phrases with
  | [] => confidence
  | phrase :: rest =>
      if contains response_lower phrase then (confidence - 0.2)%Q
      else phrase_loop rest response_lower confidence
  end.

(** [sum(s.score for s in sources)] *)
Definition sum_scores (sources : list KBSearchResult) : Q :=
  fold_left (fun acc s => (acc + score s)%Q) sources 0%Q.

(** [max(a, b)] and [min(a, b)] of Python: the first argument is kept
    unless the second is strictly beyond it. *)
Definition py_max (a b : Q) : Q := if Qle_bool b a then a else b.
Definition py_min (a b : Q) : Q := if Qle_bool a b then a else b.

(** The score is computed on exact rationals: what is proved of it holds
    of the code up to the rounding of binary64, and a statement that turns
    on a value the rounding can move is not read off this definition. *)
Definition _calculate_confidence (response : pystr)
  (sources : list KBSearchResult) : Q :=
  let confidence := 0.5%Q in
  let confidence :=
    if len response >? 50 then (confidence + 0.1)%Q else confidence in
  let confidence :=
    if len response >? 100 then (confidence + 0.1)%Q else confidence in
  let confidence :=
    if truthy sources then
      let avg_score := (sum_scores sources / inject_Z (len sources))%Q in
      (confidence + avg_score * 0.3)%Q
    else confidence in
  let response_lower := lower response in
  let confidence := phrase_loop uncertainty_phrases response_lower confidence in
  py_max 0%Q (py_min 1%Q confidence).

(** The score in the words of the specification, for comparison with
    [_calculate_confidence]: the clamp to [0, 1] of the base 0.5, plus 0.1
    for more than 50 characters, plus 0.1 more for more than 100, plus 0.3
    times the mean source score when there are sources, minus 0.2 when
    the lowered response contains one of the uncertainty phrases. *)
Definition clamp01 (x : Q) : Q := Qmax 0 (Qmin 1 x).

Definition mean_score (sources : list KBSearchResult) : Q :=
  (fold_right (fun s acc => score s + acc) 0 sources
   / inject_Z (len sources))%Q.

Definition has_uncertainty (response : pystr) : bool :=
  contains (lower response) (lit "i don't know")
  || contains (lower response) (lit "not sure")
  || contains (lower response) (lit "unclear")
  || contains (lower response) (lit "might be").

Definition confidence_spec (response : pystr) (sources : list KBSearchResult)
  : Q :=
  clamp01 (0.5
           + (if 50 <? len response then 0.1 else 0)
           + (if 100 <? len response then 0.1 else 0)
           + (if truthy sources then mean_score sources * 0.3 else 0)
           - (if has_uncertainty response then 0.2 else 0))%Q.

Definition _parse_answer_response (ai_response question_ : pystr)
  (sources_ : list KBSearchResult) : AnswerResponse :=
  let confidence_ := _calculate_confidence ai_response sources_ in
  let has_answer_ :=
    negb (Qle_bool confidence_ 0.3%Q) && (len (strip ai_response) >? 10) in
  let suggestions_ :=
    if negb has_answer_ && truthy sources_
    then map title (slice_to sources_ 3)
    else [] in
  {| question := question_;
     answer := strip ai_response;
     confidence := confidence_;
     sources := sources_;
     has_answer := has_answer_;
     suggestions := suggestions_;
     reasoning := lit "Based on " ++ str_of_nat (length sources_)
                  ++ lit " knowledge base articles" |}.

Fixpoint numbered (i : nat) (articles : list KBSearchResult) : list pystr :=
  match articles with
  | [] => []
  | article :: rest =>
      (str_of_nat i ++ lit ". " ++ title article ++ nl
       ++ slice_to (content article) 500 ++ lit "..." ++ nl)
      :: numbered (S i) rest
  end.

Definition _build_context (articles : list KBSearchResult)
  (additional_context : option pystr) : pystr :=
  let context_parts :=
    match additional_context with
    | Some (c :: cs) => [ lit "Additional Context:" ++ nl ++ (c :: cs) ++ nl ]
    | _ => []
    end in
  let context_parts :=
    if truthy articles
    then context_parts
         ++ [ lit "Relevant Knowledge Base Articles:" ++ nl ]
         ++ numbered 1 (slice_to articles 3)
    else context_parts in
  join nl context_parts.

Definition _create_answer_prompt (question_ context : pystr) : pystr :=
  join nl
    [ lit "You are a helpful assistant for a customer support knowledge base. ";
      lit "Use the provided context to answer the user's question accurately and helpfully.";
      [];
      context;
      [];
      lit "Question: " ++ question_;
      [];
      lit "Instructions:";
      lit "- Provide a clear, helpful answer based on the context";
      lit "- If the context doesn't contain enough information, say so";
      lit "- Be concise but complete";
      lit "- Use a friendly, professional tone";
      lit "- If relevant, reference specific articles or steps";
      [];
      lit "Answer:" ].

Section Answering.

(** [_generate_response]: the reply of the generation endpoint to a
    prompt, or the exception it ends with. *)
Variable _generate_response : pystr -> result pystr.

Definition fallback (question_ : pystr) (context_articles : list KBSearchResult)
  : AnswerResponse :=
  {| question := question_;
     answer := lit "I'm sorry, I couldn't process your question at the moment. Please try again later.";
     confidence := 0%Q;
     sources := context_articles;
     has_answer := false;
     suggestions := [];
     reasoning := lit "AI service error" |}.

Definition answer_question (question_ : pystr)
  (context_articles : list KBSearchResult) (additional_context : option pystr)
  : AnswerResponse :=
  let context := _build_context context_articles additional_context in
  let prompt := _create_answer_prompt question_ context in
  match _generate_response prompt with
  | Ok ai_response =>
      _parse_answer_response ai_response question_ context_articles
  | Raise e => fallback question_ context_articles
  end.

End Answering.

End AI.

(** ** Concrete inputs *)

Module Inputs.

(** A text whose first window ends at the space of index 2, which an
    overlap of 2 takes back to the cursor 0. *)
Definition stuck_text : pystr := lit "aa bbbbbbbbbb".

(** A text that ends in whitespace. *)
Definition trailing_text : pystr := lit "abcdefgh  ".

(** A text whose first window ends at index 1, before the overlap. *)
Definition early_space_text : pystr := lit "a bcdefghijklmnop".

(** The scenario of the specification. *)
Definition fox_text : pystr := lit "the quick brown fox".

(** Fifty characters, then a run of 151 characters that is also the
    query. *)
Definition long_query : pystr := repeat "a"%char 151.
Definition long_content : pystr := repeat "x"%char 50 ++ long_query.

Definition password_content : pystr :=
  lit "Reset your password by clicking Settings then Security.".

Definition password_article : KBSearchResult :=
  article (lit "Reset your password") password_content 0.9.

Definition failing_provider (prompt : pystr) : result pystr :=
  Raise ProviderError.

Definition helpful_provider (prompt : pystr) : result pystr :=
  Ok (lit "Open Settings, choose Security and click Reset password.").

Definition constant_encoder (text : pystr) : list float :=
  [1%float; 0%float].

Definition empty_index : Index.Qdrant :=
  {| Index.stored := ∅; Index.received := [] |}.

End Inputs.

(** ** Text clean-up: the shape of a cleaned text *)

Module Clean.

(** Whitespace occurs in [s] only as a plain space, and a plain space is
    never followed by whitespace. *)
Fixpoint single_spaced (s : pystr) : Prop :=
  match s with
  | [] => True
  | c :: s' =>
      (isspace c = true -> c = " "%char /\ no_lead s') /\ single_spaced s'
  end.

(** A word: one character at least and no whitespace. *)
Definition word (w : pystr) : Prop :=
  w <> [] /\ Forall (fun c => isspace c = false) w.

End Clean.

(** ** Summaries, keywords and rewriting ([ai_service.py]) *)

Module AIFlows.

(** [s[start:]] *)
Definition slice_from {A} (s : list A) (start : Z) : list A :=
  slice s start (len s).

(** [s.split(sep)] for a separator of one character; [cur] holds the
    piece being read, last character first. *)
Fixpoint split_on (sep : ascii) (s cur : pystr) : list pystr :=
  match s with
  | [] => [rev cur]
  | c :: s' =>
      if Ascii.eqb c sep then rev cur :: split_on sep s' []
      else split_on sep s' (c :: cur)
  end.

Definition split_sep (sep : ascii) (s : pystr) : list pystr :=
  split_on sep s [].

Definition _create_summary_prompt (title_ content_ : pystr) : pystr :=
  join nl
    [ lit "Create a concise summary of the following knowledge base article.";
      [];
      lit "Title: " ++ title_;
      [];
      lit "Content: " ++ content_;
      [];
      lit "Instructions:";
      lit "- Create a 1-2 sentence summary";
      lit "- Capture the main purpose and key information";
      lit "- Use clear, professional language";
      lit "- Don't exceed 150 characters";
      [];
      lit "Summary:" ].

Definition _create_keywords_prompt (title_ content_ : pystr) : pystr :=
  join nl
    [ lit "Suggest relevant keywords for the following knowledge base article.";
      [];
      lit "Title: " ++ title_;
      [];
      lit "Content: " ++ content_;
      [];
      lit "Instructions:";
      lit "- Suggest 5-10 relevant keywords";
      lit "- Include technical terms, concepts, and searchable phrases";
      lit "- Separate keywords with commas";
      lit "- Focus on words users might search for";
      [];
      lit "Keywords:" ].

Definition _create_improvement_prompt (content_ feedback : pystr) : pystr :=
  join nl
    [ lit "Improve the following knowledge base article content based on the feedback provided.";
      [];
      lit "Current Content:";
      content_;
      [];
      lit "Feedback:";
      feedback;
      [];
      lit "Instructions:";
      lit "- Address the feedback concerns";
      lit "- Improve clarity and usefulness";
      lit "- Maintain the same structure and format";
      lit "- Keep the content accurate and professional";
      [];
      lit "Improved Content:" ].

Definition _parse_keywords_response (response : pystr) : list pystr :=
  let response := strip response in
  let response :=
    if startswith response (lit "Keywords:")
    then strip (slice_from response 9)
    else response in
  let keywords_ := map strip (split_sep ","%char response) in
  let keywords_ :=
    List.filter (fun kw => truthy kw && (len kw >? 2)) keywords_ in
  slice_to keywords_ 10.

(** A keyword as the parser returns them: more than two characters, no
    whitespace at either end, no comma. *)
Definition keyword_ok (kw : pystr) : Prop :=
  2 < len kw /\ strip kw = kw /\ ~ In ","%char kw.

Section Flows.

(** [_generate_response], as in the answer flow. *)
Variable _generate_response : pystr -> result pystr.

Definition generate_article_summary (title_ content_ : pystr) : pystr :=
  match _generate_response (_create_summary_prompt title_ content_) with
  | Ok response =>
      let summary_ := strip response in
      if startswith summary_ (lit "Summary:")
      then strip (slice_from summary_ 8)
      else summary_
  | Raise e =>
      if len content_ >? 200 then slice_to content_ 200 ++ lit "..."
      else content_
  end.

Definition suggest_keywords (title_ content_ : pystr) : list pystr :=
  match _generate_response (_create_keywords_prompt title_ content_) with
  | Ok response => _parse_keywords_response response
  | Raise e => []
  end.

Definition improve_content (content_ feedback : pystr) : pystr :=
  match _generate_response (_create_improvement_prompt content_ feedback) with
  | Ok response => strip response
  | Raise e => content_
  end.

End Flows.

End AIFlows.

(** ** The search endpoints ([app/api/search.py]) *)

Module Api.

Import Index SearchService.

(** What an endpoint can catch: an exception of a service, or the
    division by zero of the page computation. *)
Inductive caught :=
| ServiceError (e : exn)
| ZeroDivisionError.

(** The outcome of an endpoint: the response body, or the
    [HTTPException] raised, whose [detail] is the text of the exception
    caught (kept here as the exception itself). *)
Inductive http (A : Type) :=
| Response (body : A)
| HTTPException (status_code : Z) (detail : caught).

Arguments Response {A} body.
Arguments HTTPException {A} status_code detail.

(** Modelled from the spec: [app.models.KBSearchResponse] is not among the
    sources; the fields are the keyword arguments of its construction in
    the endpoint. *)
Record KBSearchResponse := {
  results : list KBSearchResult;
  total : Z;
  resp_query : pystr;
  took : Z;
  page : Z;
  per_page : Z;
  max_score : Q
}.

(** [max(xs, default=d)]: the first of the largest elements. *)
Definition max_default (xs : list Q) (default : Q) : Q :=
  match xs with
  | [] => default
  | x :: rest => fold_left AI.py_max rest x
  end.

(** [a // b] *)
Definition floordiv (a b : Z) : option Z :=
  if b =? 0 then None else Some (a / b).

Section Endpoints.

Variable model : option (pystr -> list float).
Variable nearest :
  gmap string PointStruct -> SearchArgs -> result (list ScoredPoint).
Variable refused : gmap string PointStruct -> Request -> option exn.
Variable cfg : Settings.

(** [POST /articles] *)
Definition search_articles_endpoint (request : KBSearchRequest) (w : Qdrant)
  : http KBSearchResponse * Qdrant :=
  match search_articles model nearest cfg request w with
  | (Raise e, w') => (HTTPException 500 (ServiceError e), w')
  | (Ok results_, w') =>
      let max_score_ := max_default (map score results_) 0%Q in
      match floordiv (offset request) (limit request) with
      | None => (HTTPException 500 ZeroDivisionError, w')
      | Some q =>
          (Response {| results := results_;
                       total := len results_;
                       resp_query := query request;
                       took := 0;
                       page := q + 1;
                       per_page := limit request;
                       max_score := max_score_ |}, w')
      end
  end.

(** [POST /similar] *)
Definition search_similar_endpoint (request : SimilarityRequest) (w : Qdrant)
  : http (list SimilarityResult) * Qdrant :=
  match search_similar model nearest cfg request w with
  | (Raise e, w') => (HTTPException 500 (ServiceError e), w')
  | (Ok results_, w') => (Response results_, w')
  end.

(** [POST /index/{article_id}] *)
Definition index_article_endpoint (article_id : string)
  (title_ content_ : pystr) (metadata : gmap string PyVal) (w : Qdrant)
  : http pystr * Qdrant :=
  match index_article model refused cfg article_id title_ content_ metadata w
  with
  | (Raise e, w') => (HTTPException 500 (ServiceError e), w')
  | (Ok _, w') => (Response (lit "Article indexed successfully"), w')
  end.

(** [DELETE /index/{article_id}] *)
Definition delete_article_index (article_id : string) (w : Qdrant)
  : http pystr * Qdrant :=
  match delete_article refused article_id w with
  | (Raise e, w') => (HTTPException 500 (ServiceError e), w')
  | (Ok _, w') => (Response (lit "Article deleted from index"), w')
  end.

End Endpoints.

End Api.

(** ** Hits of stored points *)

Module Hits.

Import Index.

(** The hit the index answers with for a stored point: its id and
    payload, with the score of the search. *)
Definition hit_of (p : PointStruct) (s : Q) : ScoredPoint :=
  {| sp_id := id p; sp_score := s; sp_payload := payload p |}.

(** A payload that has the two keys [search_similar] reads. *)
Definition has_title_and_content (h : ScoredPoint) : Prop :=
  is_Some (sp_payload h !! "title") /\ is_Some (sp_payload h !! "content").

End Hits.

(** ** Further concrete inputs *)

Module MoreInputs.

(** The configuration with a content limit of three characters. *)
Definition tiny_settings : Settings := {|
  EMBEDDING_DIMENSION := 384;
  MAX_CONTENT_LENGTH := 3;
  CHUNK_SIZE := 512;
  CHUNK_OVERLAP := 50;
  MAX_SEARCH_RESULTS := 50;
  MIN_SEARCH_SCORE := (1 # 10)%Q
|}.

(** Two articles that differ after the first 500 characters of their
    content, and in their score. *)
Definition long_article_1 : KBSearchResult :=
  article (lit "Long") (repeat "x"%char 500 ++ lit "abc") 0.5.

Definition long_article_2 : KBSearchResult :=
  article (lit "Long") (repeat "x"%char 500 ++ lit "zzzz") 0.1.

(** An index that applies every write, and an id it accepts. *)
Definition accepting (points : gmap string Index.PointStruct)
  (request : Index.Request) : option exn :=
  None.

Definition article_uuid : string := "6f9619ff-8b86-4d11-b42d-00c04fc964ff".

(** An index that answers every search with the same hits. *)
Definition fixed_index (hits : list Index.ScoredPoint)
  (points : gmap string Index.PointStruct) (args : Index.SearchArgs)
  : result (list Index.ScoredPoint) :=
  Ok hits.

(** A hit with the four keys [search_articles] requires, and a hit
    without a title. *)
Definition full_hit : Index.ScoredPoint :=
  {| Index.sp_id := "a1";
     Index.sp_score := (4 # 5)%Q;
     Index.sp_payload :=
       <["title" := VStr (lit "Reset your password")]>
         (<["content" := VStr Inputs.password_content]>
            (<["created_at" := VStr (lit "2024-01-01")]>
               (<["updated_at" := VStr (lit "2024-02-01")]> ∅))) |}.

Definition untitled_hit : Index.ScoredPoint :=
  {| Index.sp_id := "a2";
     Index.sp_score := (1 # 2)%Q;
     Index.sp_payload := <["content" := VStr Inputs.password_content]> ∅ |}.

Definition sample_similarity_request : SimilarityRequest :=
  {| sim_text := lit "reset password";
     sim_tenant_id := lit "T1";
     sim_project_id := lit "P1";
     sim_limit := 5;
     sim_threshold := None |}.

Definition sample_search_request : KBSearchRequest :=
  {| query := lit "Settings";
     tenant_id := lit "T1";
     project_id := lit "P1";
     public_only := false;
     status := None;
     tags := None;
     limit := 10;
     offset := 20 |}.

Definition zero_limit_request : KBSearchRequest :=
  {| query := lit "Settings";
     tenant_id := lit "T1";
     project_id := lit "P1";
     public_only := false;
     status := None;
     tags := None;
     limit := 0;
     offset := 0 |}.

End MoreInputs.

(** * Verification *)

(** ** Facts about the string primitives *)

Section PyFacts.

Lemma len_nonneg {A} (l : list A) : 0 <= len l.
Proof. unfold len. lia. Qed.

Lemma len_app {A} (l k : list A) : len (l ++ k) = len l + len k.
Proof. unfold len. rewrite length_app. lia. Qed.

Lemma norm_index_range n i : 0 <= n -> 0 <= norm_index n i <= n.
Proof. unfold norm_index. destruct (Z.ltb_spec i 0); lia. Qed.

Lemma length_slice {A} (s : list A) a b :
  len (slice s a b) = Z.max 0 (norm_index (len s) b - norm_index (len s) a).
Proof.
  unfold slice.
  pose proof (norm_index_range (len s) a (len_nonneg s)).
  pose proof (norm_index_range (len s) b (len_nonneg s)).
  unfold len in *. rewrite length_take, length_drop. lia.
Qed.

Lemma lstrip_split s :
  exists ws, s = ws ++ lstrip s /\ Forall (fun c => isspace c = true) ws.
Proof.
  induction s as [|c s [ws [E F]]]; simpl.
  - exists []. split; [reflexivity | constructor].
  - destruct (isspace c) eqn:Hc.
    + exists (c :: ws). split; [simpl; congruence | constructor; assumption].
    + exists []. split; [reflexivity | constructor].
Qed.

Lemma strip_split s :
  exists ws1 ws2, s = ws1 ++ strip s ++ ws2
    /\ Forall (fun c => isspace c = true) ws1
    /\ Forall (fun c => isspace c = true) ws2.
Proof.
  destruct (lstrip_split s) as [ws1 [E1 F1]].
  destruct (lstrip_split (rev (lstrip s))) as [ws2 [E2 F2]].
  exists ws1, (rev ws2). split; [|split]; [| assumption |].
  - unfold strip, rstrip. rewrite <- rev_app_distr, <- E2, rev_involutive.
    exact E1.
  - apply Forall_forall. intros c Hc. apply list_elem_of_In, in_rev in Hc.
    rewrite List.Forall_forall in F2. auto.
Qed.

Lemma length_strip s : len (strip s) <= len s.
Proof.
  destruct (strip_split s) as [ws1 [ws2 [E _]]].
  rewrite E at 2. rewrite !len_app.
  pose proof (len_nonneg ws1). pose proof (len_nonneg ws2). lia.
Qed.

End PyFacts.

(** ** Slices *)

Section SliceFacts.

(** Inside a slice that starts at a non-negative index, position [k] is
    position [a + k] of the list. *)
Lemma lookup_slice {A} (l : list A) a b (k : nat) :
  0 <= a ->
  Z.of_nat k < len (slice l a b) ->
  slice l a b !! k = l !! (Z.to_nat a + k)%nat.
Proof.
  intros Ha Hk. rewrite length_slice in Hk. unfold slice.
  assert (norm_index (len l) a = Z.min a (len l)) as Ea.
  { unfold norm_index. destruct (Z.ltb_spec a 0); lia. }
  pose proof (norm_index_range (len l) b (len_nonneg l)).
  rewrite Ea in Hk |- *. clear Ea.
  rewrite lookup_take_lt; [|lia].
  rewrite lookup_drop. f_equal. lia.
Qed.

(** A slice that splits in three gives its middle part back as a slice. *)
Lemma slice_middle {A} (l : list A) a b (x y z : list A) :
  0 <= a ->
  slice l a b = x ++ y ++ z ->
  slice l (a + len x) (a + len x + len y) = y.
Proof.
  intros Ha E.
  assert (len (slice l a b) = len x + len y + len z) as HL.
  { rewrite E, !len_app. lia. }
  rewrite length_slice in HL.
  pose proof (len_nonneg x). pose proof (len_nonneg y).
  pose proof (len_nonneg z). pose proof (len_nonneg l).
  destruct y as [|y0 y'].
  { apply nil_length_inv. apply Nat2Z.inj. fold (len (slice l (a + len x) (a + len x + len (@nil A)))).
    rewrite length_slice. unfold norm_index, len in *. simpl.
    repeat match goal with |- context [?u <? ?v] => destruct (Z.ltb_spec u v) end; lia. }
  assert (0 < len (y0 :: y')) by (unfold len; simpl; lia).
  assert (norm_index (len l) a = a) as Ea.
  { unfold norm_index in *. destruct (Z.ltb_spec a 0); [lia|].
    destruct (Z.ltb_spec b 0); lia. }
  unfold slice in E. rewrite Ea in E.
  assert (drop (Z.to_nat a) l
          = (x ++ (y0 :: y') ++ z)
            ++ drop (Z.to_nat (norm_index (len l) b - a)) (drop (Z.to_nat a) l))
    as ED.
  { rewrite <- E. symmetry. apply take_drop. }
  assert (a + len x + len (y0 :: y') <= len l) as Hle.
  { unfold norm_index in HL.
    destruct (Z.ltb_spec b 0); destruct (Z.ltb_spec a 0); lia. }
  unfold slice.
  assert (norm_index (len l) (a + len x) = a + len x) as E1.
  { unfold norm_index. destruct (Z.ltb_spec (a + len x) 0); lia. }
  assert (norm_index (len l) (a + len x + len (y0 :: y'))
          = a + len x + len (y0 :: y')) as E2.
  { unfold norm_index.
    destruct (Z.ltb_spec (a + len x + len (y0 :: y')) 0); lia. }
  rewrite E1, E2.
  replace (Z.to_nat (a + len x)) with (Z.to_nat a + length x)%nat
    by (unfold len; lia).
  rewrite <- drop_drop, ED.
  rewrite <- !app_assoc, drop_app_length.
  replace (Z.to_nat (a + len x + len (y0 :: y') - (a + len x)))
    with (length (y0 :: y')) by (unfold len; lia).
  apply take_app_length.
Qed.

End SliceFacts.

(** ** [rfind] of a single character *)

Section RfindFacts.

Lemma startswith_single s c :
  startswith s [c] = true -> s !! 0%nat = Some c.
Proof.
  destruct s as [|b s']; simpl; [discriminate|].
  destruct (Ascii.eqb_spec c b) as [->|]; [reflexivity | discriminate].
Qed.

Lemma rfind_from_single s c : forall i,
  0 <= i ->
  rfind_from s [c] i = -1
  \/ (i <= rfind_from s [c] i < i + len s
      /\ s !! Z.to_nat (rfind_from s [c] i - i) = Some c).
Proof.
  induction s as [|b s IH]; intros i Hi.
  - left. reflexivity.
  - cbn [rfind_from].
    destruct (IH (i + 1)) as [E | [R L]]; [lia | |].
    + rewrite E. change (0 <=? -1) with false. cbv iota.
      destruct (startswith (b :: s) [c]) eqn:S; [right | left; reflexivity].
      split; [unfold len; simpl length; lia|].
      rewrite Z.sub_diag. apply startswith_single. exact S.
    + destruct (Z.leb_spec 0 (rfind_from s [c] (i + 1))); [|lia].
      right. split; [unfold len in *; simpl length; lia|].
      replace (Z.to_nat (rfind_from s [c] (i + 1) - i))
        with (S (Z.to_nat (rfind_from s [c] (i + 1) - (i + 1)))) by lia.
      exact L.
Qed.

Lemma rfind_single text c a b :
  let r := rfind text [c] a b in
  r = -1
  \/ (norm_index (len text) a <= r < norm_index (len text) b
      /\ text !! Z.to_nat r = Some c).
Proof.
  intros r. subst r. unfold rfind.
  pose proof (norm_index_range (len text) a (len_nonneg text)) as Ra.
  pose proof (norm_index_range (len text) b (len_nonneg text)) as Rb.
  destruct (Z.ltb_spec (norm_index (len text) b) (norm_index (len text) a));
    [left; reflexivity|].
  destruct (rfind_from_single (slice text a b) c (norm_index (len text) a))
    as [E | [R L]]; [lia | left; exact E | right].
  set (r := rfind_from (slice text a b) [c] (norm_index (len text) a)) in *.
  rewrite length_slice in R.
  split; [lia|].
  unfold slice in L.
  rewrite lookup_take_lt in L; [|lia].
  rewrite lookup_drop in L. rewrite <- L. f_equal. lia.
Qed.

End RfindFacts.

(** ** The chunking loop: length bound and coverage *)

Section ChunkerFacts.

Import Chunker.

Variables (text : pystr) (cs ov : Z).
Hypothesis Hov : 0 <= ov < cs.
Hypothesis Hlen : cs < len text.

Lemma window_end_cases s :
  window_end text cs s = s + cs
  \/ (s + cs < len text /\ s < window_end text cs s
      /\ (window_end text cs s = -1
          \/ (norm_index (len text) s <= window_end text cs s
                < norm_index (len text) (s + cs)
              /\ text !! Z.to_nat (window_end text cs s) = Some " "%char))).
Proof.
  unfold window_end.
  destruct (Z.ltb_spec (s + cs) (len text)); [|left; reflexivity].
  destruct (Z.gtb_spec (rfind text (lit " ") s (s + cs)) s);
    [right | left; reflexivity].
  split; [assumption|]. split; [assumption|].
  apply (rfind_single text " "%char s (s + cs)).
Qed.

Lemma window_end_progress s :
  0 <= s -> s < window_end text cs s <= s + cs.
Proof.
  intros Hs. destruct (window_end_cases s) as [E | (H1 & H2 & [E | [R _]])]; try lia.
  revert R. unfold norm_index.
  destruct (Z.ltb_spec s 0); destruct (Z.ltb_spec (s + cs) 0); lia.
Qed.

Lemma window_bound s :
  -1 - ov <= s -> s < len text ->
  len (slice text s (window_end text cs s)) <= cs
  /\ -1 <= window_end text cs s.
Proof.
  intros Hs Hn. rewrite length_slice.
  destruct (window_end_cases s) as [E | (H1 & H2 & [E | [R _]])].
  - rewrite E. unfold norm_index.
    destruct (Z.ltb_spec s 0); destruct (Z.ltb_spec (s + cs) 0); lia.
  - rewrite E. unfold norm_index. change (-1 <? 0) with true. cbv iota.
    destruct (Z.ltb_spec s 0); lia.
  - revert R. generalize (window_end text cs s). intros e.
    unfold norm_index.
    destruct (Z.ltb_spec s 0); destruct (Z.ltb_spec (s + cs) 0);
      destruct (Z.ltb_spec e 0); lia.
Qed.

Lemma body_bound st :
  -1 - ov <= start st -> start st < len text ->
  Forall (fun ch => len ch <= cs) (chunks st) ->
  -1 - ov <= start (body text cs ov st)
  /\ Forall (fun ch => len ch <= cs) (chunks (body text cs ov st)).
Proof.
  intros Hs Hn F. destruct (window_bound (start st) Hs Hn) as [B E].
  unfold body. cbn [start chunks]. split; [lia|].
  destruct (truthy _); [|exact F].
  apply Forall_app. split; [exact F|].
  constructor; [|constructor].
  pose proof (length_strip (slice text (start st) (window_end text cs (start st)))).
  lia.
Qed.

Lemma loop_bound fuel : forall st res,
  -1 - ov <= start st ->
  Forall (fun ch => len ch <= cs) (chunks st) ->
  loop fuel text cs ov st = Some res ->
  Forall (fun ch => len ch <= cs) res.
Proof.
  induction fuel as [|fuel IH]; intros st res Hs F; [discriminate|].
  cbn [loop].
  destruct (Z.ltb_spec (start st) (len text)) as [Hn|Hn];
    [|intros [= <-]; exact F].
  destruct (body_bound st Hs Hn F) as [Hs' F'].
  destruct (start (body text cs ov st) >=? len text).
  - intros [= <-]. exact F'.
  - apply IH; assumption.
Qed.

Lemma covers_app cks extra i :
  covers text cks i -> covers text (cks ++ extra) i.
Proof.
  intros (ch & p & Hin & Hrest). exists ch, p.
  split; [apply in_or_app; left; exact Hin | exact Hrest].
Qed.

Lemma body_keeps st i :
  covers text (chunks st) i -> covers text (chunks (body text cs ov st)) i.
Proof.
  intros H. unfold body. cbn [chunks].
  destruct (truthy _); [apply covers_app|]; exact H.
Qed.

Lemma body_covers st (i : nat) c :
  0 <= start st ->
  start st <= Z.of_nat i < window_end text cs (start st) ->
  text !! i = Some c -> isspace c = false ->
  covers text (chunks (body text cs ov st)) i.
Proof.
  intros Hs Hi Hc Hsp.
  set (e := window_end text cs (start st)) in *.
  pose proof (lookup_lt_Some _ _ _ Hc) as Hin.
  assert (len (slice text (start st) e) = Z.min e (len text) - start st) as HL.
  { rewrite length_slice. unfold norm_index, len in *.
    destruct (Z.ltb_spec (start st) 0); destruct (Z.ltb_spec e 0); lia. }
  assert (slice text (start st) e !! Z.to_nat (Z.of_nat i - start st) = Some c)
    as Hk.
  { rewrite lookup_slice; [| lia | unfold len in *; lia].
    rewrite <- Hc. f_equal. lia. }
  destruct (strip_split (slice text (start st) e)) as (ws1 & ws2 & E & F1 & F2).
  set (m := strip (slice text (start st) e)) in *.
  rewrite E in Hk.
  assert (length ws1 <= Z.to_nat (Z.of_nat i - start st))%nat as G1.
  { destruct (Nat.le_gt_cases (length ws1) (Z.to_nat (Z.of_nat i - start st)));
      [assumption|].
    rewrite lookup_app_l in Hk by assumption.
    apply list_elem_of_lookup_2 in Hk.
    rewrite List.Forall_forall in F1. apply list_elem_of_In in Hk.
    specialize (F1 _ Hk). congruence. }
  rewrite lookup_app_r in Hk by assumption.
  assert (Z.to_nat (Z.of_nat i - start st) - length ws1 < length m)%nat as G2.
  { destruct (Nat.le_gt_cases (length m)
                (Z.to_nat (Z.of_nat i - start st) - length ws1));
      [|assumption].
    rewrite lookup_app_r in Hk by assumption.
    apply list_elem_of_lookup_2 in Hk.
    rewrite List.Forall_forall in F2. apply list_elem_of_In in Hk.
    specialize (F2 _ Hk). congruence. }
  unfold body. cbn [chunks]. fold e. fold m.
  destruct m as [|m0 m'] eqn:Em; [simpl in G2; lia|].
  cbn [truthy]. exists (m0 :: m'), (start st + len ws1).
  split; [apply in_or_app; right; left; reflexivity|].
  split; [unfold len; lia|]. split; [unfold len; lia|].
  apply (slice_middle text (start st) e ws1 (m0 :: m') ws2); assumption.
Qed.

Lemma loop_covers :
  (forall s, cursor_reach text cs ov s -> 0 <= s) ->
  forall fuel st res,
    cursor_reach text cs ov (start st) ->
    (exists cov, start st <= cov /\
       forall (i : nat) c, Z.of_nat i < cov -> text !! i = Some c ->
         isspace c = false -> covers text (chunks st) i) ->
    loop fuel text cs ov st = Some res ->
    forall (i : nat) c, text !! i = Some c -> isspace c = false ->
      covers text res i.
Proof.
  intros Hnn. induction fuel as [|fuel IH]; intros st res Hr (cov & Hcov & C);
    [discriminate|].
  cbn [loop].
  destruct (Z.ltb_spec (start st) (len text)) as [Hn|Hn].
  - pose proof (Hnn _ Hr) as H0.
    pose proof (window_end_progress (start st) H0) as P.
    assert (exists cov', start (body text cs ov st) <= cov' /\
              forall (i : nat) c, Z.of_nat i < cov' -> text !! i = Some c ->
                isspace c = false ->
                covers text (chunks (body text cs ov st)) i) as K.
    { exists (Z.max cov (window_end text cs (start st))). split.
      - unfold body. cbn [start]. lia.
      - intros i c Hi Hc Hsp.
        destruct (Z.lt_ge_cases (Z.of_nat i) cov).
        + apply body_keeps. eapply C; eassumption.
        + eapply body_covers; try eassumption. lia. }
    destruct (Z.geb_spec (start (body text cs ov st)) (len text)) as [Hge|Hlt].
    + intros [= <-] i c Hc Hsp. destruct K as (cov' & L & K).
      apply (K i c); [|assumption|assumption].
      pose proof (lookup_lt_Some _ _ _ Hc). unfold len in *. lia.
    + apply IH; [|exact K].
      unfold body. cbn [start]. apply reach_step; assumption.
  - intros [= <-] i c Hc Hsp. apply (C i c); [|assumption|assumption].
    pose proof (lookup_lt_Some _ _ _ Hc). unfold len in *. lia.
Qed.

(** No space at the positions 1 .. overlap-1 of the text keeps the cursor
    from going below zero. *)
Lemma cursor_nonneg :
  (forall i : nat, 1 <= Z.of_nat i < ov -> text !! i <> Some " "%char) ->
  forall s, cursor_reach text cs ov s -> 0 <= s.
Proof.
  intros Hsp s R. induction R as [|s R IH Hn]; [lia|].
  destruct (window_end_cases s) as [E | (H1 & H2 & [E | [_ L]])]; try lia.
  destruct (Z.lt_ge_cases (window_end text cs s) ov); [|lia].
  exfalso. apply (Hsp (Z.to_nat (window_end text cs s))); [lia | exact L].
Qed.

End ChunkerFacts.

(** ** [find] and [in] *)

Section FindFacts.

Lemma startswith_app p rest : startswith (p ++ rest) p = true.
Proof.
  induction p as [|a p IH]; [reflexivity|].
  simpl. rewrite IH. destruct (Ascii.eqb_spec a a); [reflexivity | congruence].
Qed.

Lemma startswith_prefix s p :
  startswith s p = true -> exists rest, s = p ++ rest.
Proof.
  revert s. induction p as [|a p IH]; intros s H.
  - exists s. reflexivity.
  - destruct s as [|b s]; [discriminate|]. simpl in H.
    destruct (Ascii.eqb_spec a b) as [->|]; [|discriminate].
    destruct (IH s H) as [rest ->]. exists rest. reflexivity.
Qed.

(** [find] answers -1 or the offset of an occurrence. *)
Lemma find_from_sound s sub : forall i,
  find_from s sub i = -1
  \/ exists pre post,
       s = pre ++ sub ++ post /\ find_from s sub i = i + len pre.
Proof.
  induction s as [|b s IH]; intros i; cbn [find_from].
  - destruct (startswith [] sub) eqn:S; [right | left; reflexivity].
    destruct (startswith_prefix _ _ S) as [rest E].
    exists [], rest. split; [exact E | unfold len; simpl; lia].
  - destruct (startswith (b :: s) sub) eqn:S.
    + right. destruct (startswith_prefix _ _ S) as [rest E].
      exists [], rest. split; [exact E | unfold len; simpl; lia].
    + destruct (IH (i + 1)) as [E | (pre & post & E & R)]; [left; exact E|].
      right. exists (b :: pre), post. split; [simpl; congruence|].
      rewrite R. unfold len. simpl length. lia.
Qed.

(** [find] finds every occurrence. *)
Lemma find_from_complete pre sub post : forall i,
  0 <= i -> i <= find_from (pre ++ sub ++ post) sub i.
Proof.
  induction pre as [|b pre IH]; intros i Hi.
  - simpl app.
    assert (find_from (sub ++ post) sub i = i) as ->; [|lia].
    destruct (sub ++ post) eqn:E; cbn [find_from]; rewrite <- E;
      rewrite startswith_app; reflexivity.
  - simpl app. cbn [find_from].
    destruct (startswith _ sub); [lia|].
    specialize (IH (i + 1)). lia.
Qed.

Lemma contains_infix pre sub post : contains (pre ++ sub ++ post) sub = true.
Proof.
  unfold contains, find. apply Z.leb_le. apply find_from_complete. lia.
Qed.

Lemma length_lower s : len (lower s) = len s.
Proof. unfold lower, len. rewrite length_map. reflexivity. Qed.

Lemma lower_app s t : lower (s ++ t) = lower s ++ lower t.
Proof. apply map_app. Qed.

End FindFacts.

(** ** The snippet window *)

Section SnippetFacts.

Import Search.

Lemma length_leading content max_length :
  0 <= max_length -> len (leading content max_length) <= max_length + 3.
Proof.
  intros H. unfold leading.
  destruct (Z.gtb_spec (len content) max_length); [|lia].
  rewrite len_app. unfold slice_to. rewrite length_slice.
  pose proof (len_nonneg content).
  unfold norm_index.
  destruct (Z.ltb_spec 0 0); [lia|].
  destruct (Z.ltb_spec max_length 0); [lia|].
  change (len (lit "...")) with 3. lia.
Qed.

(** The length of a snippet is at most [max_length] plus two ellipses. *)
Lemma length_snippet content query max_length :
  0 <= max_length ->
  len (_generate_snippet content query max_length) <= max_length + 6.
Proof.
  intros H. unfold _generate_snippet.
  pose proof (length_leading content max_length H).
  destruct (negb (truthy content) || negb (truthy query)); [lia|].
  destruct (find (lower content) (lower query) =? -1); [lia|].
  generalize (find (lower content) (lower query)). intros pos.
  remember (Z.max 0 (pos - max_length / 4)) as st eqn:Est.
  remember (Z.min (len content) (st + max_length)) as en eqn:Een.
  assert (len (slice content st en) <= max_length) as HL.
  { rewrite length_slice. pose proof (len_nonneg content).
    unfold norm_index.
    destruct (Z.ltb_spec st 0); destruct (Z.ltb_spec en 0); lia. }
  destruct (st >? 0); destruct (en <? len content);
    rewrite ?len_app; change (len (lit "...")) with 3; lia.
Qed.

(** A found query of at most [max_length - max_length / 4] characters lies
    inside the window of the snippet. *)
Lemma snippet_holds_match content query max_length :
  0 <= max_length ->
  truthy content = true -> truthy query = true ->
  len query <= max_length - max_length / 4 ->
  let pos := find (lower content) (lower query) in
  pos <> -1 ->
  lower (slice content pos (pos + len query)) = lower query
  /\ contains (_generate_snippet content query max_length)
       (slice content pos (pos + len query)) = true.
Proof.
  intros Hm Hc Hq Hlen pos Hpos.
  destruct (find_from_sound (lower content) (lower query) 0)
    as [E | (pre & post & E & R)]; [contradiction|].
  fold (find (lower content) (lower query)) in R. fold pos in R.
  rewrite Z.add_0_l in R.
  pose proof (len_nonneg pre) as Npre. pose proof (len_nonneg post) as Npost.
  pose proof (len_nonneg query) as Nq.
  assert (len content = len pre + len query + len post) as HL.
  { rewrite <- (length_lower content), E, !len_app, length_lower. lia. }
  (* the match, cut out of the content *)
  set (mt := slice content pos (pos + len query)).
  assert (content = slice content 0 pos ++ mt ++ slice content (pos + len query) (len content)) as Csplit.
  { unfold mt, slice, norm_index.
    destruct (Z.ltb_spec 0 0); [lia|].
    destruct (Z.ltb_spec pos 0); [lia|].
    destruct (Z.ltb_spec (pos + len query) 0); [lia|].
    destruct (Z.ltb_spec (len content) 0); [lia|].
    rewrite !Z.min_l by lia.
    simpl (Z.to_nat 0). rewrite drop_0, Z.sub_0_r.
    replace (Z.to_nat (pos + len query - pos)) with (Z.to_nat (len query)) by lia.
    replace (Z.to_nat (pos + len query))
      with (Z.to_nat pos + Z.to_nat (len query))%nat by lia.
    rewrite <- drop_drop.
    rewrite (take_ge (drop _ (drop _ content))).
    2:{ rewrite !length_drop. unfold len in *. lia. }
    rewrite !take_drop. reflexivity. }
  assert (len mt = len query) as Lmt.
  { unfold mt. rewrite length_slice. unfold norm_index.
    destruct (Z.ltb_spec pos 0); [lia|].
    destruct (Z.ltb_spec (pos + len query) 0); lia. }
  split.
  - (* the cut-out part lower-cases to the lowered query *)
    assert (lower content = lower (slice content 0 pos) ++ lower mt
              ++ lower (slice content (pos + len query) (len content))) as LE.
    { rewrite <- !lower_app, <- Csplit. reflexivity. }
    rewrite E in LE.
    apply app_inj_1 in LE.
    + destruct LE as [_ LE]. apply app_inj_1 in LE; [symmetry; apply LE|].
      unfold lower. rewrite !length_map. unfold len in Lmt. lia.
    + unfold lower. rewrite length_map.
      apply Nat2Z.inj. fold (len pre). fold (len (slice content 0 pos)).
      rewrite length_slice. unfold norm_index.
      destruct (Z.ltb_spec 0 0); [lia|].
      destruct (Z.ltb_spec pos 0); lia.
  - unfold _generate_snippet. rewrite Hc, Hq. cbn [negb orb].
    fold pos. destruct (Z.eqb_spec pos (-1)); [contradiction|].
    remember (Z.max 0 (pos - max_length / 4)) as st eqn:Est.
    remember (Z.min (len content) (st + max_length)) as en eqn:Een.
    assert (0 <= max_length / 4) by (apply Z.div_pos; lia).
    assert (exists u v, slice content st en = u ++ mt ++ v) as (u & v & W).
    { exists (slice content st pos), (slice content (pos + len query) en).
      unfold mt, slice, norm_index.
      destruct (Z.ltb_spec st 0); [lia|].
      destruct (Z.ltb_spec en 0); [lia|].
      destruct (Z.ltb_spec pos 0); [lia|].
      destruct (Z.ltb_spec (pos + len query) 0); [lia|].
      rewrite !Z.min_l by lia.
      replace (Z.to_nat pos) with (Z.to_nat st + Z.to_nat (pos - st))%nat by lia.
      replace (Z.to_nat (pos + len query))
        with (Z.to_nat st + (Z.to_nat (pos - st) + Z.to_nat (len query)))%nat
        by lia.
      rewrite <- !drop_drop.
      generalize (drop (Z.to_nat st) content). intros l.
      replace (Z.to_nat (en - st))
        with (Z.to_nat (pos - st) + (Z.to_nat (len query)
               + Z.to_nat (en - (pos + len query))))%nat by lia.
      replace (Z.to_nat (pos + len query - pos)) with (Z.to_nat (len query)) by lia.
      rewrite <- !take_take_drop. reflexivity. }
    rewrite W.
    destruct (st >? 0); destruct (en <? len content).
    + rewrite <- !app_assoc. rewrite (app_assoc (lit "...") u).
      apply contains_infix.
    + rewrite (app_assoc (lit "...") u). apply contains_infix.
    + rewrite <- !app_assoc. apply contains_infix.
    + apply contains_infix.
Qed.

End SnippetFacts.

(** ** The confidence score *)

Section ConfidenceFacts.

Import AI.

Local Open Scope Q_scope.

Lemma py_min_spec a b : py_min a b == Qmin a b.
Proof.
  unfold py_min. destruct (Qle_bool a b) eqn:E.
  - apply Qle_bool_iff in E. symmetry. apply Q.min_l. exact E.
  - assert (~ a <= b) as N by (rewrite <- Qle_bool_iff; congruence).
    symmetry. apply Q.min_r. lra.
Qed.

Lemma py_max_spec a b : py_max a b == Qmax a b.
Proof.
  unfold py_max. destruct (Qle_bool b a) eqn:E.
  - apply Qle_bool_iff in E. symmetry. apply Q.max_l. exact E.
  - assert (~ b <= a) as N by (rewrite <- Qle_bool_iff; congruence).
    symmetry. apply Q.max_r. lra.
Qed.

Lemma clamp_eq x y : x == y -> py_max 0 (py_min 1 x) == clamp01 y.
Proof.
  intros E. unfold clamp01. rewrite py_max_spec, py_min_spec, E. reflexivity.
Qed.

Lemma clamp01_id x : 0 <= x <= 1 -> clamp01 x == x.
Proof.
  intros [H0 H1]. unfold clamp01.
  rewrite (Q.min_r 1 x) by exact H1. apply Q.max_r. exact H0.
Qed.

Lemma phrase_loop_spec rl c : forall phrases,
  phrase_loop phrases rl c
  == c - (if existsb (contains rl) phrases then 0.2 else 0).
Proof.
  induction phrases as [|p ps IH]; simpl.
  - ring.
  - destruct (contains rl p); simpl; [reflexivity | exact IH].
Qed.

Lemma fold_left_scores sources : forall acc,
  fold_left (fun a s => a + score s) sources acc
  == acc + fold_right (fun s a => score s + a) 0 sources.
Proof.
  induction sources as [|s rest IH]; intros acc; simpl.
  - ring.
  - rewrite IH. ring.
Qed.

Lemma sum_scores_spec sources :
  sum_scores sources == fold_right (fun s a => score s + a) 0 sources.
Proof. unfold sum_scores. rewrite fold_left_scores. ring. Qed.

(** The list the loop of the code runs over holds the four phrases of the
    specification and no other. *)
Lemma phrases_listed response :
  existsb (contains (lower response)) uncertainty_phrases
  = has_uncertainty response.
Proof.
  unfold has_uncertainty, uncertainty_phrases. cbn [existsb].
  rewrite orb_false_r, !orb_assoc. reflexivity.
Qed.

(** The computation of [_calculate_confidence], statement by statement,
    gives the score the specification describes. *)
Lemma calculate_confidence_spec response sources :
  _calculate_confidence response sources == confidence_spec response sources.
Proof.
  unfold _calculate_confidence, confidence_spec.
  apply clamp_eq. rewrite phrase_loop_spec, phrases_listed.
  rewrite !Z.gtb_ltb.
  destruct (50 <? len response); destruct (100 <? len response);
    destruct (truthy sources); destruct (has_uncertainty response);
    unfold mean_score; rewrite ?sum_scores_spec; unfold Qdiv; ring.
Qed.

Lemma sum_bounds sources :
  Forall (fun s => 0 <= score s <= 1) sources ->
  0 <= fold_right (fun s a => score s + a) 0 sources
    <= inject_Z (len sources).
Proof.
  induction 1 as [|s rest [H0 H1] F IH]; simpl.
  - split; apply Qle_refl.
  - unfold len in *. simpl length. rewrite Nat2Z.inj_succ.
    unfold Z.succ. rewrite inject_Z_plus. change (inject_Z 1) with 1. lra.
Qed.

Lemma mean_bounds sources :
  truthy sources = true ->
  Forall (fun s => 0 <= score s <= 1) sources ->
  0 <= mean_score sources <= 1.
Proof.
  intros T F. destruct (sum_bounds sources F) as [H0 H1].
  assert (0 < inject_Z (len sources)) as Hn.
  { destruct sources as [|s0 rest]; [discriminate|]. unfold len. simpl length.
    rewrite Nat2Z.inj_succ. unfold Z.succ. rewrite inject_Z_plus.
    change (inject_Z 1) with 1.
    assert (0 <= inject_Z (Z.of_nat (length rest))).
    { change 0 with (inject_Z 0). rewrite <- Zle_Qle. lia. }
    lra. }
  unfold mean_score. split.
  - apply Qle_shift_div_l; [exact Hn | lra].
  - apply Qle_shift_div_r; [exact Hn | lra].
Qed.

(** Before the phrase check the score lies between 0.5 and 1. *)
Lemma bonus_bounds (n : Z) sources :
  Forall (fun s => 0 <= score s <= 1) sources ->
  0.5 <= 0.5 + (if (50 <? n)%Z then 0.1 else 0)
             + (if (100 <? n)%Z then 0.1 else 0)
             + (if truthy sources then mean_score sources * 0.3 else 0)
      <= 1.
Proof.
  intros F.
  assert (0 <= (if truthy sources then mean_score sources * 0.3 else 0)
            <= 0.3) as Hm.
  { destruct (truthy sources) eqn:T; [|lra].
    destruct (mean_bounds sources T F). lra. }
  destruct (50 <? n)%Z; destruct (100 <? n)%Z; lra.
Qed.

Lemma confidence_penalty r1 r2 sources :
  len r1 = len r2 ->
  Forall (fun s => 0 <= score s <= 1) sources ->
  has_uncertainty r1 = true -> has_uncertainty r2 = false ->
  _calculate_confidence r1 sources == _calculate_confidence r2 sources - 0.2.
Proof.
  intros L F U1 U2. rewrite !calculate_confidence_spec.
  unfold confidence_spec. rewrite U1, U2, L.
  pose proof (bonus_bounds (len r2) sources F) as B.
  rewrite !clamp01_id; lra.
Qed.

End ConfidenceFacts.

(** ** [strip] is idempotent *)

Section StripFacts.

Lemma lstrip_no_lead s : no_lead (lstrip s).
Proof.
  induction s as [|c s IH]; simpl; [exact I|].
  destruct (isspace c) eqn:E; [exact IH | exact E].
Qed.

Lemma lstrip_id s : no_lead s -> lstrip s = s.
Proof. destruct s as [|c s]; simpl; [reflexivity|]. intros ->. reflexivity. Qed.

Lemma lstrip_idem s : lstrip (lstrip s) = lstrip s.
Proof. apply lstrip_id, lstrip_no_lead. Qed.

Lemma rstrip_idem s : rstrip (rstrip s) = rstrip s.
Proof. unfold rstrip. rewrite rev_involutive, lstrip_idem. reflexivity. Qed.

Lemma rstrip_split s :
  exists ws, s = rstrip s ++ ws.
Proof.
  destruct (lstrip_split (rev s)) as [ws [E _]].
  exists (rev ws). unfold rstrip. rewrite <- rev_app_distr, <- E.
  symmetry. apply rev_involutive.
Qed.

Lemma rstrip_no_lead s : no_lead s -> no_lead (rstrip s).
Proof.
  intros H. destruct (rstrip_split s) as [ws E].
  destruct (rstrip s) as [|c r]; [exact I|].
  rewrite E in H. exact H.
Qed.

Lemma strip_idem s : strip (strip s) = strip s.
Proof.
  unfold strip at 1.
  rewrite (lstrip_id (strip s)).
  - unfold strip. apply rstrip_idem.
  - unfold strip. apply rstrip_no_lead, lstrip_no_lead.
Qed.

End StripFacts.

(** ** Parsed answers *)

Section AnswerFacts.

Import AI.

Lemma parse_has_answer ai_response q srcs :
  let a := _parse_answer_response ai_response q srcs in
  has_answer a = true ->
  (0.3 < confidence a)%Q /\ 10 < len (strip (answer a)).
Proof.
  intros a. unfold a, _parse_answer_response. cbn [has_answer confidence answer].
  intros H. apply andb_true_iff in H. destruct H as [Hc Hl].
  split.
  - apply Qnot_le_lt. intros N. apply Qle_bool_iff in N.
    rewrite N in Hc. discriminate.
  - rewrite strip_idem. lia.
Qed.

Lemma parse_suggestions ai_response q srcs :
  let a := _parse_answer_response ai_response q srcs in
  has_answer a = false -> sources a <> [] ->
  suggestions a = map title (slice_to (sources a) 3).
Proof.
  intros a. unfold a, _parse_answer_response.
  cbn [has_answer suggestions sources].
  intros -> Hs. destruct srcs; [contradiction|]. reflexivity.
Qed.

End AnswerFacts.

(** ** The shape of a filter *)

Section FilterFacts.

Import Search.

Lemma build_filter_shape tenant project request :
  _build_filter_conditions tenant project request
  = {| must := Some (tenant_condition tenant :: project_condition project
                     :: optional_conditions request);
       should := None;
       must_not := None |}.
Proof.
  unfold _build_filter_conditions, optional_conditions.
  destruct request as [r|]; [|reflexivity].
  destruct (public_only r); destruct (status r) as [[|x xs]|];
    destruct (tags r) as [[|y ys]|]; reflexivity.
Qed.

End FilterFacts.

(** ** Calls and stored points of the search service *)

Section ServiceFacts.

Import Search Index SearchService.

Variable model : option (pystr -> list float).
Variable nearest :
  gmap string PointStruct -> SearchArgs -> result (list ScoredPoint).
Variable refused : gmap string PointStruct -> Request -> option exn.
Variable cfg : Settings.

(** The calls [search_similar] adds to those the index has received. *)
Lemma search_similar_calls request w :
  received (snd (search_similar model nearest cfg request w))
  = received w
    ++ match generate_embedding model cfg (sim_text request) with
       | Raise _ => []
       | Ok v =>
           [ SearchCall
               {| collection_name := collection;
                  query_vector := v;
                  query_filter :=
                    _build_filter_conditions (sim_tenant_id request)
                      (sim_project_id request) None;
                  search_limit := sim_limit request;
                  search_offset := None;
                  score_threshold := sim_threshold request |} ]
       end.
Proof.
  unfold search_similar, mbind, svc_bind, lift, search.
  destruct (generate_embedding model cfg (sim_text request)) as [v|e];
    cbn [snd received].
  - destruct (nearest _ _); cbn [snd received]; reflexivity.
  - rewrite app_nil_r. reflexivity.
Qed.

Lemma search_articles_calls request w :
  received (snd (search_articles model nearest cfg request w))
  = received w
    ++ match generate_embedding model cfg (query request) with
       | Raise _ => []
       | Ok v =>
           [ SearchCall
               {| collection_name := collection;
                  query_vector := v;
                  query_filter :=
                    _build_filter_conditions (tenant_id request)
                      (project_id request) (Some request);
                  search_limit := limit request;
                  search_offset := Some (offset request);
                  score_threshold := Some (MIN_SEARCH_SCORE cfg) |} ]
       end.
Proof.
  unfold search_articles, mbind, svc_bind, lift, search.
  destruct (generate_embedding model cfg (query request)) as [v|e];
    cbn [snd received].
  - destruct (nearest _ _); cbn [snd received]; reflexivity.
  - rewrite app_nil_r. reflexivity.
Qed.

(** With the model loaded, [index_article] is the upsert of one point. *)
Lemma index_article_sent enc article_id title content metadata w :
  model = Some enc ->
  index_article model refused cfg article_id title content metadata w
  = upsert refused collection
      [ {| id := article_id;
           vector := enc (_clean_text cfg (title ++ nl ++ nl ++ content));
           payload := metadata ∪ <["content" := VStr content]>
                                    (<["title" := VStr title]> ∅) |} ] w.
Proof.
  intros M. unfold index_article, mbind, svc_bind, lift, generate_embedding.
  rewrite M. reflexivity.
Qed.

(** A write is received whatever the index answers; it changes the
    points only when it is applied. *)
Lemma write_outcome request apply w :
  received (snd (write refused request apply w)) = received w ++ [request]
  /\ (fst (write refused request apply w) = Ok tt ->
      stored (snd (write refused request apply w)) = apply (stored w))
  /\ (forall e, fst (write refused request apply w) = Raise e ->
      stored (snd (write refused request apply w)) = stored w).
Proof.
  unfold write. destruct (refused (stored w) request) as [e|];
    cbn [fst snd stored received].
  - split; [reflexivity|]. split; [discriminate | reflexivity].
  - split; [reflexivity|]. split; [reflexivity | discriminate].
Qed.

Lemma payload_title (metadata : gmap string PyVal) title content :
  (metadata ∪ <["content" := VStr content]> (<["title" := VStr title]> ∅))
    !! "title"
  = Some (match metadata !! "title" with
          | Some v => v
          | None => VStr title
          end).
Proof.
  destruct (metadata !! "title") as [v|] eqn:E.
  - apply lookup_union_Some_l. exact E.
  - rewrite lookup_union_r by exact E.
    rewrite lookup_insert_ne by discriminate. apply lookup_insert_eq.
Qed.

Lemma payload_content (metadata : gmap string PyVal) title content :
  (metadata ∪ <["content" := VStr content]> (<["title" := VStr title]> ∅))
    !! "content"
  = Some (match metadata !! "content" with
          | Some v => v
          | None => VStr content
          end).
Proof.
  destruct (metadata !! "content") as [v|] eqn:E.
  - apply lookup_union_Some_l. exact E.
  - rewrite lookup_union_r by exact E. apply lookup_insert_eq.
Qed.

End ServiceFacts.

(** ** Cosine similarity *)

Section SimilarityFacts.

Import Similarity.

Lemma np_dot_defined a b :
  length a = length b -> exists d, np_dot a b = Ok d.
Proof.
  intros E. unfold np_dot. rewrite E, Nat.eqb_refl. eexists. reflexivity.
Qed.

End SimilarityFacts.


(** * The claims *)

(** ** TextChunker *)

Section ChunkerClaims.

Import Chunker Inputs.

Lemma stuck_body cks :
  body stuck_text 5 2 {| start := 0; chunks := cks |}
  = {| start := 0; chunks := cks ++ [lit "aa"] |}.
Proof. reflexivity. Qed.

Lemma stuck_loop fuel : forall cks,
  loop fuel stuck_text 5 2 {| start := 0; chunks := cks |} = None.
Proof.
  induction fuel as [|fuel IH]; intros cks; [reflexivity|].
  cbn [loop]. rewrite stuck_body. cbn [start chunks].
  change (0 <? len stuck_text) with true.
  change (0 >=? len stuck_text) with false.
  cbv iota. apply IH.
Qed.

(** C1 (evaluation at the failing input).  On the text "aa bbbbbbbbbb" with
    chunk_size 5 and overlap 2, which satisfy 0 <= overlap < chunk_size, one
    pass of the loop body leaves the cursor at 0, where it started, and
    [chunk_text] returns for no amount of fuel: the loop does not end. *)
Theorem chunk_text_no_progress :
  0 <= 2 < 5
  /\ (forall cks,
       start (body stuck_text 5 2 {| start := 0; chunks := cks |}) = 0)
  /\ (forall fuel,
       chunk_text fuel settings stuck_text (Some 5) (Some 2) = None).
Proof.
  split; [lia|]. split.
  - intros cks. rewrite stuck_body. reflexivity.
  - intros fuel. unfold chunk_text. cbn [int_or].
    change (len stuck_text <=? (if 5 =? 0 then CHUNK_SIZE settings else 5))
      with false.
    cbv iota. apply stuck_loop.
Qed.

(** Where every window ends more than [overlap] characters after a
    non-negative cursor, the loop ends within [len text + 1] passes. *)
Lemma loop_returns text cs ov :
  (forall s, cursor_reach text cs ov s ->
     s < len text -> s < window_end text cs s - ov) ->
  forall fuel st,
    cursor_reach text cs ov (start st) ->
    len text - start st <= Z.of_nat fuel ->
    exists res, loop (S fuel) text cs ov st = Some res.
Proof.
  intros P. induction fuel as [|fuel IH]; intros st R Hf; cbn [loop].
  - destruct (Z.ltb_spec (start st) (len text)); [lia|]. eexists. reflexivity.
  - destruct (Z.ltb_spec (start st) (len text)) as [Hn|Hn];
      [|eexists; reflexivity].
    destruct (Z.geb_spec (start (body text cs ov st)) (len text));
      [eexists; reflexivity|].
    apply IH.
    + unfold body. cbn [start]. apply reach_step; assumption.
    + specialize (P _ R Hn). unfold body. cbn [start]. lia.
Qed.

(** A text without any space is cut every [chunk_size - overlap]
    characters, and [chunk_text] returns within [len text + 1] passes. *)
Lemma chunk_text_returns_without_spaces cfg text chunk_size overlap :
  0 <= int_or overlap (CHUNK_OVERLAP cfg)
    < int_or chunk_size (CHUNK_SIZE cfg) ->
  (forall i : nat, text !! i <> Some " "%char) ->
  exists res,
    chunk_text (S (Z.to_nat (len text))) cfg text chunk_size overlap
    = Some res.
Proof.
  intros Hov Hsp. unfold chunk_text.
  destruct (len text <=? int_or chunk_size (CHUNK_SIZE cfg));
    [eexists; reflexivity|].
  set (cs := int_or chunk_size (CHUNK_SIZE cfg)) in *.
  set (ov := int_or overlap (CHUNK_OVERLAP cfg)) in *.
  assert (forall s, cursor_reach text cs ov s -> 0 <= s) as Hnn.
  { apply cursor_nonneg; [exact Hov|]. intros i _. apply Hsp. }
  apply loop_returns; cbn [start].
  - intros s R Hn. specialize (Hnn s R).
    destruct (window_end_cases text cs s) as [E | (_ & H2 & [E | [_ L]])].
    + rewrite E. lia.
    + lia.
    + exfalso. exact (Hsp _ L).
  - constructor.
  - pose proof (len_nonneg text). lia.
Qed.

(** An overlap of 0 cannot be asked for: it is replaced by the configured
    50, and with a chunk_size of 10 the cursor then settles at -51. *)
Lemma stuck_zero_overlap fuel : forall cks,
  loop fuel (lit "abcdefghijk") 10 50 {| start := -51; chunks := cks |}
  = None.
Proof.
  induction fuel as [|fuel IH]; intros cks; [reflexivity|].
  cbn [loop].
  change (body (lit "abcdefghijk") 10 50 {| start := -51; chunks := cks |})
    with {| start := -51; chunks := cks ++ [lit "abcdefghij"] |}.
  cbn [start chunks].
  change (-51 <? len (lit "abcdefghijk")) with true.
  change (-51 >=? len (lit "abcdefghijk")) with false.
  cbv iota. apply IH.
Qed.

Lemma chunk_text_zero_overlap_replaced fuel :
  chunk_text fuel settings (lit "abcdefghijk") (Some 10) (Some 0) = None.
Proof.
  unfold chunk_text.
  change (int_or (Some 10) (CHUNK_SIZE settings)) with 10.
  change (int_or (Some 0) (CHUNK_OVERLAP settings)) with 50.
  change (len (lit "abcdefghijk") <=? 10) with false. cbv iota.
  destruct fuel as [|[|fuel]]; [reflexivity | reflexivity |].
  cbn [loop].
  change (body (lit "abcdefghijk") 10 50 {| start := 0; chunks := [] |})
    with {| start := -40; chunks := [lit "abcdefghij"] |}.
  cbn [start chunks].
  change (0 <? len (lit "abcdefghijk")) with true.
  change (-40 >=? len (lit "abcdefghijk")) with false.
  change (-40 <? len (lit "abcdefghijk")) with true.
  cbv iota.
  change (body (lit "abcdefghijk") 10 50
            {| start := -40; chunks := [lit "abcdefghij"] |})
    with {| start := -51;
            chunks := [lit "abcdefghij"; lit "abcdefghij"] |}.
  cbn [start chunks].
  change (-51 >=? len (lit "abcdefghijk")) with false. cbv iota.
  apply stuck_zero_overlap.
Qed.

(** C2 (the claim as stated fails).  The text "abcdefgh  " is longer than
    chunk_size 4, and 0 <= 1 < 4; the chunks returned are "abcd", "defg"
    and "gh", so the space at index 8 of the text is in no chunk. *)
Lemma chunk_text_drops_edge_whitespace :
  4 < len trailing_text /\ 0 <= 1 < 4
  /\ chunk_text 5 settings trailing_text (Some 4) (Some 1)
     = Some [lit "abcd"; lit "defg"; lit "gh"]
  /\ trailing_text !! 8%nat = Some " "%char
  /\ ~ (forall res,
          chunk_text 5 settings trailing_text (Some 4) (Some 1) = Some res ->
          forall (i : nat) c, trailing_text !! i = Some c ->
            exists ch, In ch res /\ In c ch).
Proof.
  split; [reflexivity|]. split; [lia|]. split; [reflexivity|].
  split; [reflexivity|].
  intros H.
  destruct (H _ eq_refl 8%nat " "%char eq_refl) as (ch & Hin & Hc).
  simpl in Hin.
  destruct Hin as [<- | [<- | [<- | []]]]; vm_compute in Hc;
    repeat (destruct Hc as [Hc | Hc]; [discriminate Hc|]); exact Hc.
Qed.

(** Once the cursor has gone below zero a character other than whitespace
    can be left out too: on "a bcdefghijklmnop" with chunk_size 6 and
    overlap 2 the cursor passes through -1 and no chunk holds the "b". *)
Lemma chunk_text_negative_cursor_skips :
  chunk_text 8 settings early_space_text (Some 6) (Some 2)
  = Some [lit "a"; lit "cdefgh"; lit "ghijkl"; lit "klmnop"; lit "op"]
  /\ cursor_reach early_space_text 6 2 (-1).
Proof.
  split; [reflexivity|].
  apply (reach_step early_space_text 6 2 0); [constructor | reflexivity].
Qed.

(** C2 (amended).  With the effective sizes [0 <= overlap < chunk_size]
    (an argument that is absent or 0 is replaced by the configured value)
    and a text longer than chunk_size, when [chunk_text] returns: no chunk
    is longer than chunk_size; and if the cursor never goes below zero,
    every character of the text that is not whitespace lies inside a
    returned chunk, each such chunk being a slice of the text. *)
Theorem chunk_text_bound_and_cover fuel cfg text chunk_size overlap res :
  0 <= int_or overlap (CHUNK_OVERLAP cfg)
    < int_or chunk_size (CHUNK_SIZE cfg) ->
  int_or chunk_size (CHUNK_SIZE cfg) < len text ->
  chunk_text fuel cfg text chunk_size overlap = Some res ->
  Forall (fun ch => len ch <= int_or chunk_size (CHUNK_SIZE cfg)) res
  /\ ((forall s,
         cursor_reach text (int_or chunk_size (CHUNK_SIZE cfg))
           (int_or overlap (CHUNK_OVERLAP cfg)) s -> 0 <= s) ->
      forall (i : nat) c,
        text !! i = Some c -> isspace c = false -> covers text res i).
Proof.
  intros Hov Hlen. unfold chunk_text.
  destruct (Z.leb_spec (len text) (int_or chunk_size (CHUNK_SIZE cfg)));
    [lia|].
  intros Hrun. split.
  - eapply loop_bound; try eassumption; cbn [start chunks]; [lia|constructor].
  - intros Hnn i c Hc Hsp.
    eapply loop_covers; try eassumption; cbn [start chunks].
    + constructor.
    + exists 0. split; [lia|]. intros j d Hj. lia.
Qed.

(** The scenario of the specification: "the quick brown fox" with
    chunk_size 10 and overlap 2. *)
Lemma chunk_text_bound_and_cover_witness :
  Forall (fun ch => len ch <= 10)
    [lit "the quick"; lit "ck brown"; lit "wn fox"]
  /\ forall (i : nat) c,
       fox_text !! i = Some c -> isspace c = false ->
       covers fox_text [lit "the quick"; lit "ck brown"; lit "wn fox"] i.
Proof.
  destruct (chunk_text_bound_and_cover 5 settings fox_text (Some 10) (Some 2)
              [lit "the quick"; lit "ck brown"; lit "wn fox"])
    as [B C].
  - simpl. lia.
  - reflexivity.
  - reflexivity.
  - split; [exact B|]. apply C.
    apply cursor_nonneg; [simpl; lia|].
    intros i Hi. assert (i = 1%nat) as -> by (simpl in Hi; lia).
    discriminate.
Defined.

End ChunkerClaims.

(** ** AnswerConfidenceScorer *)

Section ConfidenceClaims.

Import AI Inputs.

Local Open Scope Q_scope.

(** C3.  For every response and every list of sources,
    [_calculate_confidence] is the clamp to [0, 1] of 0.5, plus 0.1 when the
    response has more than 50 characters, plus 0.1 more when it has more
    than 100, plus 0.3 times the mean source score when there are sources,
    minus 0.2, once, when the lowered response contains one of the four
    uncertainty phrases. *)
Theorem calculate_confidence_matches_spec response srcs :
  _calculate_confidence response srcs == confidence_spec response srcs
  /\ 0 <= _calculate_confidence response srcs <= 1.
Proof.
  pose proof (calculate_confidence_spec response srcs) as E.
  split; [exact E|]. rewrite E. unfold confidence_spec, clamp01.
  split.
  - apply Q.le_max_l.
  - apply Q.max_lub; [lra | apply Q.le_min_l].
Qed.

(** The subtraction happens once although two phrases occur: the scenario
    of the specification, 50 characters and one source of score 0.9,
    scores 0.5 + 0.27 - 0.2. *)
Lemma calculate_confidence_matches_spec_witness :
  _calculate_confidence
    (lit "I am not sure, but it might be related to caching.")
    [article [] [] 0.9] == 0.57
  /\ contains
       (lower (lit "I am not sure, but it might be related to caching."))
       (lit "not sure") = true
  /\ contains
       (lower (lit "I am not sure, but it might be related to caching."))
       (lit "might be") = true.
Proof.
  destruct (calculate_confidence_matches_spec
              (lit "I am not sure, but it might be related to caching.")
              [article [] [] 0.9]) as [E _].
  split; [|split; reflexivity].
  rewrite E. reflexivity.
Defined.

(** C5.  For two responses of the same length and one list of sources with
    scores in [0, 1], the first response containing an uncertainty phrase
    and the second none, the confidence of the first is that of the second
    minus 0.2; the clamp at 0 never binds, the second being at least 0.5. *)
Theorem uncertainty_phrase_lowers_confidence r1 r2 srcs :
  len r1 = len r2 ->
  Forall (fun s => 0 <= score s <= 1) srcs ->
  has_uncertainty r1 = true ->
  has_uncertainty r2 = false ->
  _calculate_confidence r1 srcs == _calculate_confidence r2 srcs - 0.2
  /\ _calculate_confidence r1 srcs
     == Qmax 0 (_calculate_confidence r2 srcs - 0.2)
  /\ 0.5 <= _calculate_confidence r2 srcs.
Proof.
  intros L F U1 U2.
  pose proof (confidence_penalty r1 r2 srcs L F U1 U2) as P.
  assert (0.5 <= _calculate_confidence r2 srcs) as B.
  { rewrite calculate_confidence_spec. unfold confidence_spec. rewrite U2.
    pose proof (bonus_bounds (len r2) srcs F).
    rewrite clamp01_id; lra. }
  split; [exact P|]. split; [|exact B].
  rewrite P. symmetry. apply Q.max_r. lra.
Qed.

(** Two responses of eight characters over one source of score 0.9. *)
Lemma uncertainty_phrase_lowers_confidence_witness :
  _calculate_confidence (lit "not sure") [password_article]
  == _calculate_confidence (lit "it is so") [password_article] - 0.2
  /\ _calculate_confidence (lit "not sure") [password_article]
     == Qmax 0 (_calculate_confidence (lit "it is so") [password_article]
                - 0.2)
  /\ 0.5 <= _calculate_confidence (lit "it is so") [password_article].
Proof.
  apply (uncertainty_phrase_lowers_confidence
           (lit "not sure") (lit "it is so") [password_article]).
  - reflexivity.
  - repeat constructor; simpl; unfold Qle; simpl; lia.
  - reflexivity.
  - reflexivity.
Defined.

End ConfidenceClaims.

(** ** The answer flow *)

Section AnswerClaims.

Import AI Inputs.

(** C4 (the claim as stated fails).  When the generation endpoint fails,
    the answer has [has_answer = false] and keeps its one source, yet its
    suggestions are empty, not the title of that source. *)
Lemma answer_fallback_no_suggestions :
  let a := answer_question failing_provider
             (lit "How do I reset my password?") [password_article] None in
  has_answer a = false
  /\ sources a = [password_article]
  /\ suggestions a = []
  /\ map title (slice_to (sources a) 3) = [lit "Reset your password"]
  /\ suggestions a <> map title (slice_to (sources a) 3).
Proof. repeat split; try reflexivity. discriminate. Qed.

(** C4 (amended).  For every answer of [answer_question]: [has_answer]
    holds only with a confidence above 0.3 and a trimmed answer of more
    than 10 characters; when the generation endpoint replied, [has_answer]
    is false and there are sources, the suggestions are the titles of the
    first three sources at most; when the endpoint failed, the answer is
    the fallback: [has_answer] false, confidence 0, no suggestions, the
    sources kept. *)
Theorem answer_question_invariant
  (generate : pystr -> result pystr) (question_ : pystr)
  (arts : list KBSearchResult) (extra : option pystr) :
  let a := answer_question generate question_ arts extra in
  let reply :=
    generate (_create_answer_prompt question_ (_build_context arts extra)) in
  (has_answer a = true ->
     (0.3 < confidence a)%Q /\ 10 < len (strip (answer a)))
  /\ (forall r, reply = Ok r -> has_answer a = false -> sources a <> [] ->
        suggestions a = map title (slice_to (sources a) 3)
        /\ (length (suggestions a) <= 3)%nat)
  /\ (forall e, reply = Raise e ->
        has_answer a = false /\ confidence a = 0%Q
        /\ suggestions a = [] /\ sources a = arts).
Proof.
  intros a reply. subst a. unfold answer_question. fold reply.
  destruct reply as [r|e].
  - split; [apply parse_has_answer|]. split.
    + intros r' _ Hf Hs.
      split; [apply parse_suggestions; assumption|].
      rewrite parse_suggestions by assumption.
      rewrite length_map. apply Nat2Z.inj_le.
      change (len (slice_to (sources (_parse_answer_response r question_ arts))
                     3) <= 3).
      unfold slice_to. rewrite length_slice.
      pose proof (len_nonneg
                    (sources (_parse_answer_response r question_ arts))).
      unfold norm_index.
      destruct (Z.ltb_spec 0 0); [lia|]. destruct (Z.ltb_spec 3 0); lia.
    + intros e [=].
  - cbn [fallback has_answer confidence suggestions sources].
    split; [discriminate|]. split; [intros r [=]|].
    intros e' _. repeat split; reflexivity.
Qed.

(** An endpoint that answers: the answer is surfaced. *)
Lemma answer_question_invariant_witness :
  let a := answer_question helpful_provider
             (lit "How do I reset my password?") [password_article] None in
  (0.3 < confidence a)%Q /\ 10 < len (strip (answer a)).
Proof.
  intros a.
  apply (answer_question_invariant helpful_provider
           (lit "How do I reset my password?") [password_article] None).
  reflexivity.
Defined.

End AnswerClaims.

(** ** SnippetExtractor *)

Section SnippetClaims.

Import Search Inputs.

(** C6 (the claim as stated fails).  The content is 50 characters followed
    by the 151 characters of the query; the query is found at index 50,
    the window is [0, 200), and the snippet, 203 characters long, holds
    only 150 characters of the match: neither the matched substring nor,
    in any letter case, the query is in it. *)
Lemma snippet_cuts_long_query :
  truthy long_content = true /\ truthy long_query = true
  /\ find (lower long_content) (lower long_query) = 50
  /\ len (_generate_snippet long_content long_query 200) = 203
  /\ contains (_generate_snippet long_content long_query 200)
       (slice long_content 50 (50 + len long_query)) = false
  /\ contains (lower (_generate_snippet long_content long_query 200))
       (lower long_query) = false.
Proof. vm_compute. repeat split; reflexivity. Qed.

(** C6 (amended).  For non-empty content and query and max_length 200 the
    snippet has at most 206 characters; and when the query has at most 150
    characters (200 minus the look-back of 200 // 4) and occurs, letter
    case ignored, in the content, the snippet contains the matched
    substring of the content, which lower-cases to the lowered query. *)
Theorem generate_snippet_bound_and_match content_ query_ :
  truthy content_ = true -> truthy query_ = true ->
  len (_generate_snippet content_ query_ max_length_default)
    <= max_length_default + 6
  /\ (len query_ <= 150 ->
      contains (lower content_) (lower query_) = true ->
      lower (slice content_ (find (lower content_) (lower query_))
               (find (lower content_) (lower query_) + len query_))
      = lower query_
      /\ contains (_generate_snippet content_ query_ max_length_default)
           (slice content_ (find (lower content_) (lower query_))
              (find (lower content_) (lower query_) + len query_))
         = true).
Proof.
  intros Hc Hq. split.
  - apply length_snippet. unfold max_length_default. lia.
  - intros Hl Hin.
    apply (snippet_holds_match content_ query_ max_length_default);
      try assumption.
    + unfold max_length_default. lia.
    + unfold contains in Hin. apply Z.leb_le in Hin. lia.
Qed.

(** The query "Settings" in the password article. *)
Lemma generate_snippet_bound_and_match_witness :
  len (_generate_snippet password_content (lit "Settings")
         max_length_default) <= max_length_default + 6
  /\ contains (_generate_snippet password_content (lit "Settings")
                 max_length_default)
       (lit "Settings") = true.
Proof.
  destruct (generate_snippet_bound_and_match password_content (lit "Settings"))
    as [B M]; [reflexivity | reflexivity |].
  split; [exact B|].
  destruct M as [_ M]; [vm_compute; discriminate | reflexivity |].
  exact M.
Defined.

End SnippetClaims.

(** ** FilterBuilder and RetrievalOrchestrator *)

Section FilterClaims.

Import Search Index SearchService Inputs MoreInputs.

(** C7.  For every tenant, project and optional request, the filter has
    only the [must] clause (a conjunction; no [should], no [must_not]);
    the clause holds the exact-match condition on the tenant and the one on
    the project, and besides them only the conditions the request adds:
    visibility when [public_only] is set, status membership and tag
    membership when these lists are not empty. *)
Theorem build_filter_conjunction tenant project request :
  exists conditions,
    must (_build_filter_conditions tenant project request) = Some conditions
    /\ should (_build_filter_conditions tenant project request) = None
    /\ must_not (_build_filter_conditions tenant project request) = None
    /\ In (tenant_condition tenant) conditions
    /\ In (project_condition project) conditions
    /\ conditions = tenant_condition tenant :: project_condition project
                    :: optional_conditions request.
Proof.
  rewrite build_filter_shape. eexists. cbn [must should must_not].
  repeat split; [left; reflexivity | right; left; reflexivity].
Qed.

(** The scenario of the specification: tenant T1, project P1 and the
    status list [published]. *)
Lemma build_filter_scenario :
  must (_build_filter_conditions (lit "T1") (lit "P1")
          (Some {| query := []; tenant_id := lit "T1";
                   project_id := lit "P1"; public_only := false;
                   status := Some [lit "published"]; tags := None;
                   limit := 10; offset := 0 |}))
  = Some [ tenant_condition (lit "T1"); project_condition (lit "P1");
           {| key := "status"; match_ := MatchAny [lit "published"] |} ].
Proof. reflexivity. Qed.

(** C9.  Whatever the request and the state of the index, [search_similar]
    sends the index nothing when the embedding model is not loaded, and
    otherwise exactly one call, a search, whose filter has exactly two
    conditions, the tenant and the project exact matches, and no other
    clause; [search_articles] sends a search whose filter holds, after
    these two, the optional conditions of the request. *)
Theorem search_similar_filter_two_conditions
  (model : option (pystr -> list float))
  (nearest : gmap string PointStruct -> SearchArgs
             -> result (list ScoredPoint))
  (cfg : Settings) :
  (forall request w,
      received (snd (search_similar model nearest cfg request w))
      = received w
        ++ match model with
           | None => []
           | Some encode =>
               [ SearchCall
                   {| collection_name := lit "kb_articles";
                      query_vector :=
                        encode (_clean_text cfg (sim_text request));
                      query_filter :=
                        {| must :=
                             Some [ tenant_condition (sim_tenant_id request);
                                    project_condition
                                      (sim_project_id request) ];
                           should := None;
                           must_not := None |};
                      search_limit := sim_limit request;
                      search_offset := None;
                      score_threshold := sim_threshold request |} ]
           end)
  /\ (forall request w,
        received (snd (search_articles model nearest cfg request w))
        = received w
          ++ match model with
             | None => []
             | Some encode =>
                 [ SearchCall
                     {| collection_name := lit "kb_articles";
                        query_vector :=
                          encode (_clean_text cfg (query request));
                        query_filter :=
                          {| must :=
                               Some (tenant_condition (tenant_id request)
                                     :: project_condition (project_id request)
                                     :: optional_conditions (Some request));
                             should := None;
                             must_not := None |};
                        search_limit := limit request;
                        search_offset := Some (offset request);
                        score_threshold := Some (MIN_SEARCH_SCORE cfg) |} ]
             end)
  /\ (forall request,
        public_only request = true ->
        In {| key := "is_public"; match_ := MatchValue (VBool true) |}
          (optional_conditions (Some request))).
Proof.
  split; [|split].
  - intros request w. rewrite search_similar_calls.
    unfold generate_embedding. destruct model; reflexivity.
  - intros request w. rewrite search_articles_calls.
    unfold generate_embedding. destruct model; [|reflexivity].
    rewrite build_filter_shape. reflexivity.
  - intros request P. unfold optional_conditions. rewrite P.
    left. reflexivity.
Qed.



End FilterClaims.

(** ** VectorSimilarity *)

Section SimilarityClaims.

Import Similarity.

(** C8.  For vectors of equal length [compute_similarity] raises nothing:
    when the norm of either vector is zero it returns 0.0, and otherwise
    the dot product divided by the product of the two norms. *)
Theorem compute_similarity_cases (a b : list float) :
  length a = length b ->
  exists d,
    np_dot a b = Ok d
    /\ (((np_linalg_norm a =? 0)%float = true
         \/ (np_linalg_norm b =? 0)%float = true) ->
        compute_similarity a b = Ok 0%float)
    /\ ((np_linalg_norm a =? 0)%float = false ->
        (np_linalg_norm b =? 0)%float = false ->
        compute_similarity a b
        = Ok (d / (np_linalg_norm a * np_linalg_norm b))%float).
Proof.
  intros E. destruct (np_dot_defined a b E) as [d Hd].
  exists d. split; [exact Hd|]. unfold compute_similarity. rewrite Hd.
  split.
  - intros [H | H]; rewrite H; [reflexivity|].
    rewrite orb_true_r. reflexivity.
  - intros H1 H2. rewrite H1, H2. reflexivity.
Qed.

(** A zero vector, and a vector against itself. *)
Lemma compute_similarity_cases_witness :
  compute_similarity [3%float; 4%float] [0%float; 0%float] = Ok 0%float
  /\ compute_similarity [3%float; 4%float] [3%float; 4%float] = Ok 1%float.
Proof.
  split.
  - destruct (compute_similarity_cases [3%float; 4%float] [0%float; 0%float]
                eq_refl) as (d & _ & Z & _).
    apply Z. right. reflexivity.
  - destruct (compute_similarity_cases [3%float; 4%float] [3%float; 4%float]
                eq_refl) as (d & D & _ & N).
    rewrite N by reflexivity.
    injection D as <-. reflexivity.
Defined.

End SimilarityClaims.

(** * Further properties of the code *)

(** ** [_clean_text] *)

Section CleanTextProps.

Import Clean SearchService MoreInputs.

Lemma split_from_words s : forall cur,
  Forall (fun c => isspace c = false) cur ->
  Forall word (split_from s cur).
Proof.
  induction s as [|c s IH]; intros cur Hcur; cbn [split_from].
  - destruct cur as [|d cur]; [constructor|].
    constructor; [|constructor]. split.
    + intros E. apply (f_equal (@length ascii)) in E.
      rewrite length_rev in E. discriminate.
    + apply List.Forall_forall. intros x Hx. apply in_rev in Hx.
      rewrite List.Forall_forall in Hcur. auto.
  - destruct (isspace c) eqn:Hc.
    + destruct cur as [|d cur]; [apply IH; constructor|].
      constructor; [|apply IH; constructor]. split.
      * intros E. apply (f_equal (@length ascii)) in E.
        rewrite length_rev in E. discriminate.
      * apply List.Forall_forall. intros x Hx. apply in_rev in Hx.
        rewrite List.Forall_forall in Hcur. auto.
    + apply IH. constructor; assumption.
Qed.

Lemma split_words text : Forall word (split text).
Proof. apply split_from_words. constructor. Qed.

Lemma single_spaced_app w t :
  Forall (fun c => isspace c = false) w ->
  single_spaced t -> single_spaced (w ++ t).
Proof.
  induction 1 as [|c w Hc Hw IH]; intros Ht; [exact Ht|].
  simpl. split; [congruence | apply IH; exact Ht].
Qed.

Lemma no_lead_word_app w t : word w -> no_lead (w ++ t).
Proof.
  intros [Hne Hw]. destruct w as [|c w]; [contradiction|].
  simpl. apply Forall_inv in Hw. exact Hw.
Qed.

Lemma join_single_spaced ws :
  Forall word ws ->
  single_spaced (join (lit " ") ws) /\ no_lead (join (lit " ") ws).
Proof.
  induction 1 as [|w ws Hw Hws [IHs IHn]]; [split; exact I|].
  cbn [join]. destruct ws as [|w2 ws].
  - split.
    + rewrite <- (app_nil_r w). apply single_spaced_app; [apply Hw | exact I].
    + rewrite <- (app_nil_r w). apply no_lead_word_app. exact Hw.
  - split; [|apply no_lead_word_app; exact Hw].
    apply single_spaced_app; [apply Hw|].
    change (lit " " ++ join (lit " ") (w2 :: ws))
      with (" "%char :: join (lit " ") (w2 :: ws)).
    cbn [single_spaced]. split; [|exact IHs].
    intros _. split; [reflexivity | exact IHn].
Qed.

Lemma no_lead_take (k : nat) s : no_lead s -> no_lead (take k s).
Proof. destruct k, s; simpl; auto. Qed.

Lemma single_spaced_take s : forall k : nat,
  single_spaced s -> single_spaced (take k s).
Proof.
  induction s as [|c s IH]; intros k H; [destruct k; exact I|].
  destruct k as [|k]; [exact I|].
  cbn [take single_spaced] in *. destruct H as [H1 H2].
  split; [|apply IH; exact H2].
  intros Hc. destruct (H1 Hc) as [E N].
  split; [exact E | apply no_lead_take; exact N].
Qed.

Lemma slice_to_take {A} (l : list A) k :
  exists n : nat, slice_to l k = take n l.
Proof.
  unfold slice_to, slice. eexists.
  replace (Z.to_nat (norm_index (len l) 0)) with 0%nat.
  - rewrite drop_0. reflexivity.
  - pose proof (len_nonneg l). unfold norm_index.
    destruct (Z.ltb_spec 0 0); lia.
Qed.

Lemma split_from_word_app w t : forall cur,
  Forall (fun c => isspace c = false) w ->
  split_from (w ++ t) cur = split_from t (rev w ++ cur).
Proof.
  induction w as [|c w IH]; intros cur Hw; [reflexivity|].
  inversion Hw as [|? ? Hc Hw']; subst.
  simpl app. cbn [split_from]. rewrite Hc.
  rewrite IH by assumption. simpl rev. rewrite <- app_assoc. reflexivity.
Qed.

(** Splitting the words joined by single spaces gives the words back. *)
Lemma split_join ws :
  Forall word ws -> split (join (lit " ") ws) = ws.
Proof.
  unfold split. induction 1 as [|w ws [Hne Hw] Hws IH]; [reflexivity|].
  assert (exists d r, rev w = d :: r) as (d & r & Er).
  { destruct (rev w) as [|d r] eqn:E; [|eauto].
    apply (f_equal (@length ascii)) in E. rewrite length_rev in E.
    destruct w; [contradiction | discriminate]. }
  cbn [join]. destruct ws as [|w2 ws].
  - rewrite <- (app_nil_r w) at 1. rewrite split_from_word_app by assumption.
    rewrite app_nil_r. cbn [split_from]. rewrite Er, <- Er, rev_involutive.
    reflexivity.
  - rewrite split_from_word_app by assumption. rewrite app_nil_r.
    change (lit " " ++ join (lit " ") (w2 :: ws))
      with (" "%char :: join (lit " ") (w2 :: ws)).
    cbn [split_from]. change (isspace " "%char) with true. cbv iota.
    rewrite Er, <- Er, rev_involutive. rewrite IH. reflexivity.
Qed.

(** X1.  When [MAX_CONTENT_LENGTH] is not negative, a cleaned text has at
    most [MAX_CONTENT_LENGTH] characters. *)
Theorem clean_text_length cfg text :
  0 <= MAX_CONTENT_LENGTH cfg ->
  len (_clean_text cfg text) <= MAX_CONTENT_LENGTH cfg.
Proof.
  intros H. unfold _clean_text.
  destruct (truthy text); cbn [negb]; [|unfold len; simpl; lia].
  destruct (Z.gtb_spec (len (join (lit " ") (split text)))
              (MAX_CONTENT_LENGTH cfg)); [|lia].
  unfold slice_to. rewrite length_slice.
  pose proof (len_nonneg (join (lit " ") (split text))).
  unfold norm_index.
  destruct (Z.ltb_spec 0 0); [lia|].
  destruct (Z.ltb_spec (MAX_CONTENT_LENGTH cfg) 0); lia.
Qed.

(** Under a limit of three characters. *)
Lemma clean_text_length_witness :
  len (_clean_text tiny_settings (lit "ab cd")) <= 3.
Proof. apply (clean_text_length tiny_settings). simpl. lia. Defined.

(** X2.  A cleaned text does not start with whitespace, and whitespace
    occurs in it only as a plain space that no whitespace follows:
    tabs, line feeds and runs of blanks of the input are gone. *)
Theorem clean_text_single_spaced cfg text :
  no_lead (_clean_text cfg text) /\ single_spaced (_clean_text cfg text).
Proof.
  unfold _clean_text.
  destruct (truthy text); cbn [negb]; [|split; exact I].
  destruct (join_single_spaced (split text) (split_words text)) as [S N].
  destruct (len (join (lit " ") (split text)) >? MAX_CONTENT_LENGTH cfg);
    [|split; assumption].
  destruct (slice_to_take (join (lit " ") (split text))
              (MAX_CONTENT_LENGTH cfg)) as [n ->].
  split; [apply no_lead_take | apply single_spaced_take]; assumption.
Qed.

(** X3.  When the cleaned text needs no cut, cleaning keeps the words of
    the text and cleaning again changes nothing. *)
Theorem clean_text_keeps_words cfg text :
  len (join (lit " ") (split text)) <= MAX_CONTENT_LENGTH cfg ->
  split (_clean_text cfg text) = split text
  /\ _clean_text cfg (_clean_text cfg text) = _clean_text cfg text.
Proof.
  intros H.
  assert (_clean_text cfg text = join (lit " ") (split text)) as E.
  { unfold _clean_text. destruct text as [|c t]; [reflexivity|].
    cbn [truthy negb].
    destruct (Z.gtb_spec (len (join (lit " ") (split (c :: t))))
                (MAX_CONTENT_LENGTH cfg)); [lia | reflexivity]. }
  assert (split (_clean_text cfg text) = split text) as W.
  { rewrite E. apply split_join, split_words. }
  split; [exact W|].
  rewrite E in W |- *.
  set (cleaned := join (lit " ") (split text)) in *.
  unfold _clean_text. destruct cleaned as [|c t] eqn:J; [reflexivity|].
  cbn [truthy negb]. rewrite W. fold cleaned. rewrite J.
  destruct (Z.gtb_spec (len (c :: t)) (MAX_CONTENT_LENGTH cfg));
    [lia | reflexivity].
Qed.

(** Tabs and a line feed between three words. *)
Lemma clean_text_keeps_words_witness :
  split (_clean_text settings
           (" "%char :: lit "reset" ++ ["009"%char; "010"%char]
            ++ lit "your  password "))
  = [lit "reset"; lit "your"; lit "password"]
  /\ _clean_text settings
       (" "%char :: lit "reset" ++ ["009"%char; "010"%char]
        ++ lit "your  password ")
     = lit "reset your password".
Proof.
  destruct (clean_text_keeps_words settings
              (" "%char :: lit "reset" ++ ["009"%char; "010"%char]
               ++ lit "your  password ")) as [W I].
  - vm_compute. discriminate.
  - split; [rewrite W; reflexivity | reflexivity].
Defined.

(** With a cut the cleaned text can end in a space, which a second
    cleaning removes. *)
Lemma clean_text_cut_not_stable :
  _clean_text tiny_settings (lit "ab cd") = lit "ab "
  /\ _clean_text tiny_settings (_clean_text tiny_settings (lit "ab cd"))
     = lit "ab".
Proof. split; reflexivity. Qed.

End CleanTextProps.

(** ** [chunk_text] *)

Section ChunkerProps.

Import Chunker Inputs.

Lemma truthy_nonempty {A} (l : list A) : truthy l = true -> l <> [].
Proof. destruct l; [discriminate | discriminate]. Qed.

Lemma loop_trimmed text cs ov fuel : forall st res,
  Forall (fun ch => ch <> [] /\ strip ch = ch) (chunks st) ->
  loop fuel text cs ov st = Some res ->
  Forall (fun ch => ch <> [] /\ strip ch = ch) res.
Proof.
  induction fuel as [|fuel IH]; intros st res F; [discriminate|].
  cbn [loop].
  destruct (start st <? len text); [|intros [= <-]; exact F].
  assert (Forall (fun ch => ch <> [] /\ strip ch = ch)
            (chunks (body text cs ov st))) as F'.
  { unfold body. cbn [chunks].
    destruct (truthy _) eqn:T; [|exact F].
    apply Forall_app. split; [exact F|].
    constructor; [|constructor].
    split; [apply truthy_nonempty; exact T | apply strip_idem]. }
  destruct (start (body text cs ov st) >=? len text).
  - intros [= <-]. exact F'.
  - apply IH. exact F'.
Qed.

(** X4.  For a text longer than the effective chunk_size, every chunk
    [chunk_text] returns is non-empty and has no whitespace at either
    end. *)
Theorem chunk_text_chunks_trimmed fuel cfg text chunk_size overlap res :
  int_or chunk_size (CHUNK_SIZE cfg) < len text ->
  chunk_text fuel cfg text chunk_size overlap = Some res ->
  Forall (fun ch => ch <> [] /\ strip ch = ch) res.
Proof.
  intros Hlen. unfold chunk_text.
  destruct (Z.leb_spec (len text) (int_or chunk_size (CHUNK_SIZE cfg)));
    [lia|].
  apply loop_trimmed. constructor.
Qed.

Lemma chunk_text_chunks_trimmed_witness :
  Forall (fun ch => ch <> [] /\ strip ch = ch)
    [lit "abcd"; lit "defg"; lit "gh"].
Proof.
  apply (chunk_text_chunks_trimmed 5 settings trailing_text
           (Some 4) (Some 1)); reflexivity.
Defined.

Lemma slice_infix {A} (l : list A) a b :
  exists pre post, l = pre ++ slice l a b ++ post.
Proof.
  unfold slice.
  exists (take (Z.to_nat (norm_index (len l) a)) l),
    (drop (Z.to_nat (norm_index (len l) b - norm_index (len l) a))
       (drop (Z.to_nat (norm_index (len l) a)) l)).
  rewrite take_drop, take_drop. reflexivity.
Qed.

Lemma loop_pieces text cs ov fuel : forall st res,
  Forall (fun ch => exists pre post, text = pre ++ ch ++ post) (chunks st) ->
  loop fuel text cs ov st = Some res ->
  Forall (fun ch => exists pre post, text = pre ++ ch ++ post) res.
Proof.
  induction fuel as [|fuel IH]; intros st res F; [discriminate|].
  cbn [loop].
  destruct (start st <? len text); [|intros [= <-]; exact F].
  assert (Forall (fun ch => exists pre post, text = pre ++ ch ++ post)
            (chunks (body text cs ov st))) as F'.
  { unfold body. cbn [chunks].
    destruct (truthy _); [|exact F].
    apply Forall_app. split; [exact F|].
    constructor; [|constructor].
    destruct (slice_infix text (start st) (window_end text cs (start st)))
      as (p1 & q1 & E1).
    destruct (strip_split (slice text (start st)
                             (window_end text cs (start st))))
      as (w1 & w2 & E2 & _).
    exists (p1 ++ w1), (w2 ++ q1).
    rewrite E1 at 1. rewrite E2 at 1. rewrite <- !app_assoc. reflexivity. }
  destruct (start (body text cs ov st) >=? len text).
  - intros [= <-]. exact F'.
  - apply IH. exact F'.
Qed.

(** X5.  Whatever the sizes, every chunk [chunk_text] returns is a run of
    consecutive characters of the text: nothing is added or reordered,
    also when the cursor has gone below zero. *)
Theorem chunk_text_chunks_are_pieces fuel cfg text chunk_size overlap res :
  chunk_text fuel cfg text chunk_size overlap = Some res ->
  Forall (fun ch => exists pre post, text = pre ++ ch ++ post) res.
Proof.
  unfold chunk_text.
  destruct (len text <=? int_or chunk_size (CHUNK_SIZE cfg)).
  - intros [= <-]. constructor; [|constructor].
    exists [], []. rewrite app_nil_r. reflexivity.
  - apply loop_pieces. constructor.
Qed.

Lemma chunk_text_chunks_are_pieces_witness :
  Forall (fun ch => exists pre post, early_space_text = pre ++ ch ++ post)
    [lit "a"; lit "cdefgh"; lit "ghijkl"; lit "klmnop"; lit "op"].
Proof.
  apply (chunk_text_chunks_are_pieces 8 settings early_space_text
           (Some 6) (Some 2)).
  reflexivity.
Defined.

Lemma loop_count text cs ov fuel : forall st res,
  loop fuel text cs ov st = Some res ->
  (length res <= length (chunks st) + fuel)%nat.
Proof.
  induction fuel as [|fuel IH]; intros st res; [discriminate|].
  cbn [loop].
  destruct (start st <? len text); [|intros [= <-]; lia].
  assert (length (chunks (body text cs ov st)) <= S (length (chunks st)))%nat
    as L.
  { unfold body. cbn [chunks]. destruct (truthy _); [|lia].
    rewrite length_app. simpl. lia. }
  destruct (start (body text cs ov st) >=? len text).
  - intros E. assert (res = chunks (body text cs ov st)) as ->
      by congruence.
    lia.
  - intros H. apply IH in H. lia.
Qed.

Lemma window_end_no_space text cs s :
  (forall i : nat, text !! i <> Some " "%char) ->
  0 <= s -> window_end text cs s = s + cs.
Proof.
  intros Hsp Hs.
  destruct (window_end_cases text cs s) as [E | (_ & H2 & [E | [_ L]])];
    [exact E | lia | exfalso; exact (Hsp _ L)].
Qed.

Lemma loop_returns_in text cs ov :
  0 <= ov < cs ->
  (forall i : nat, text !! i <> Some " "%char) ->
  forall fuel st,
    0 <= start st ->
    len text - start st <= Z.of_nat fuel * (cs - ov) ->
    exists res, loop (S fuel) text cs ov st = Some res.
Proof.
  intros Hov Hsp. induction fuel as [|fuel IH]; intros st Hs Hf; cbn [loop].
  - destruct (Z.ltb_spec (start st) (len text)); [lia|]. eexists. reflexivity.
  - destruct (Z.ltb_spec (start st) (len text)) as [Hn|Hn];
      [|eexists; reflexivity].
    destruct (Z.geb_spec (start (body text cs ov st)) (len text));
      [eexists; reflexivity|].
    apply IH; unfold body; cbn [start];
      rewrite (window_end_no_space text cs (start st) Hsp Hs); lia.
Qed.

(** X6.  On a text without a space character and with effective sizes
    [0 <= overlap < chunk_size], [chunk_text] returns within
    [len text / (chunk_size - overlap) + 2] passes of its loop, and with
    at most that many chunks. *)
Theorem chunk_text_returns_in_steps cfg text chunk_size overlap :
  0 <= int_or overlap (CHUNK_OVERLAP cfg)
    < int_or chunk_size (CHUNK_SIZE cfg) ->
  (forall i : nat, text !! i <> Some " "%char) ->
  exists res,
    chunk_text
      (Z.to_nat (len text / (int_or chunk_size (CHUNK_SIZE cfg)
                             - int_or overlap (CHUNK_OVERLAP cfg))) + 2)
      cfg text chunk_size overlap = Some res
    /\ (length res
        <= Z.to_nat (len text / (int_or chunk_size (CHUNK_SIZE cfg)
                                 - int_or overlap (CHUNK_OVERLAP cfg))) + 2)%nat.
Proof.
  intros Hov Hsp.
  set (cs := int_or chunk_size (CHUNK_SIZE cfg)) in *.
  set (ov := int_or overlap (CHUNK_OVERLAP cfg)) in *.
  assert (exists res,
            chunk_text (Z.to_nat (len text / (cs - ov)) + 2) cfg text
              chunk_size overlap = Some res) as [res Hres].
  { unfold chunk_text. fold cs. fold ov.
    destruct (len text <=? cs); [eexists; reflexivity|].
    replace (Z.to_nat (len text / (cs - ov)) + 2)%nat
      with (S (Z.to_nat (len text / (cs - ov)) + 1)) by lia.
    apply loop_returns_in; try assumption; cbn [start]; [lia|].
    pose proof (len_nonneg text).
    assert (0 <= len text / (cs - ov)) by (apply Z.div_pos; lia).
    pose proof (Z.mod_pos_bound (len text) (cs - ov)).
    pose proof (Z.div_mod (len text) (cs - ov)).
    nia. }
  exists res. split; [exact Hres|].
  revert Hres. unfold chunk_text. fold cs. fold ov.
  destruct (len text <=? cs).
  - intros [= <-]. simpl. lia.
  - intros H. apply loop_count in H. cbn [chunks length] in H. lia.
Qed.

Lemma chunk_text_returns_in_steps_witness :
  exists res,
    chunk_text 5 settings (lit "abcdefghij") (Some 4) (Some 1) = Some res
    /\ (length res <= 5)%nat.
Proof.
  apply (chunk_text_returns_in_steps settings (lit "abcdefghij")
           (Some 4) (Some 1)).
  - simpl. lia.
  - intros i. do 10 (destruct i as [|i]; [discriminate|]). discriminate.
Defined.

Lemma loop_never_leaves text cs ov :
  0 < cs <= ov ->
  forall fuel st,
    start st < len text -> loop fuel text cs ov st = None.
Proof.
  intros Hov. induction fuel as [|fuel IH]; intros st Hs; [reflexivity|].
  cbn [loop]. destruct (Z.ltb_spec (start st) (len text)); [|lia].
  assert (start (body text cs ov st) < len text) as Hs'.
  { unfold body. cbn [start].
    pose proof (len_nonneg text).
    pose proof (norm_index_range (len text) (start st + cs) H0).
    destruct (window_end_cases text cs (start st))
      as [E | (_ & _ & [E | [R _]])]; lia. }
  destruct (Z.geb_spec (start (body text cs ov st)) (len text)); [lia|].
  apply IH. exact Hs'.
Qed.

(** X7.  When the effective chunk_size is positive and the effective
    overlap is not smaller than it (as with a chunk_size from 1 to the
    configured overlap of 50 and no overlap given), [chunk_text] does not
    return on any text longer than chunk_size: the cursor never reaches
    the end of the text. *)
Theorem chunk_text_overlap_too_large fuel cfg text chunk_size overlap :
  0 < int_or chunk_size (CHUNK_SIZE cfg)
    <= int_or overlap (CHUNK_OVERLAP cfg) ->
  int_or chunk_size (CHUNK_SIZE cfg) < len text ->
  chunk_text fuel cfg text chunk_size overlap = None.
Proof.
  intros Hov Hlen. unfold chunk_text.
  destruct (Z.leb_spec (len text) (int_or chunk_size (CHUNK_SIZE cfg)));
    [lia|].
  apply loop_never_leaves; [exact Hov|]. cbn [start]. lia.
Qed.

(** A chunk_size of 40 with the overlap left to the configuration. *)
Lemma chunk_text_overlap_too_large_witness :
  chunk_text 1000 settings (repeat "a"%char 41) (Some 40) None = None.
Proof.
  apply (chunk_text_overlap_too_large 1000 settings (repeat "a"%char 41)
           (Some 40) None).
  - simpl. lia.
  - reflexivity.
Defined.

End ChunkerProps.

(** ** When the chunking loop ends *)

Section ChunkerEndProps.

Import Chunker Inputs.

Lemma loop_stuck_at text cs ov s :
  s < len text ->
  window_end text cs s - ov = s ->
  forall fuel cks,
    loop fuel text cs ov {| start := s; chunks := cks |} = None.
Proof.
  intros Hs Hfix. induction fuel as [|fuel IH]; intros cks; [reflexivity|].
  cbn [loop]. cbn [start].
  destruct (Z.ltb_spec s (len text)); [|lia].
  unfold body at 1 2. cbn [start]. rewrite Hfix.
  destruct (Z.geb_spec s (len text)); [lia|].
  unfold body. cbn [start chunks]. rewrite Hfix. apply IH.
Qed.

Lemma loop_stuck_before text cs ov s :
  cursor_reach text cs ov s ->
  (forall fuel cks,
     loop fuel text cs ov {| start := s; chunks := cks |} = None) ->
  forall fuel cks,
    loop fuel text cs ov {| start := 0; chunks := cks |} = None.
Proof.
  induction 1 as [|s R IH Hs]; intros Hstuck; [exact Hstuck|].
  apply IH. intros fuel cks.
  destruct fuel as [|fuel]; [reflexivity|].
  cbn [loop]. cbn [start].
  destruct (Z.ltb_spec s (len text)); [|lia].
  unfold body. cbn [start chunks].
  destruct (Z.geb_spec (window_end text cs s - ov) (len text)) as [G|G].
  - specialize (Hstuck 1%nat []). cbn [loop start] in Hstuck.
    destruct (Z.ltb_spec (window_end text cs s - ov) (len text));
      [lia | discriminate].
  - apply Hstuck.
Qed.

(** X8.  If, on a text longer than the effective chunk_size, the cursor
    reaches a position below the end of the text whose window ends
    exactly [overlap] characters later, the next cursor is that position
    again and [chunk_text] never returns. *)
Theorem chunk_text_stuck_cursor fuel cfg text chunk_size overlap s :
  int_or chunk_size (CHUNK_SIZE cfg) < len text ->
  cursor_reach text (int_or chunk_size (CHUNK_SIZE cfg))
    (int_or overlap (CHUNK_OVERLAP cfg)) s ->
  s < len text ->
  window_end text (int_or chunk_size (CHUNK_SIZE cfg)) s
    - int_or overlap (CHUNK_OVERLAP cfg) = s ->
  chunk_text fuel cfg text chunk_size overlap = None.
Proof.
  intros Hlen R Hs Hfix. unfold chunk_text.
  destruct (Z.leb_spec (len text) (int_or chunk_size (CHUNK_SIZE cfg)));
    [lia|].
  apply (loop_stuck_before _ _ _ s R).
  apply loop_stuck_at; assumption.
Qed.

(** "the quick brown fox jumps over" with sizes 10 and 4: the second
    cursor is 5, whose window [5, 15) is pulled back to the space at
    index 9. *)
Lemma chunk_text_stuck_cursor_witness :
  chunk_text 1000 settings (lit "the quick brown fox jumps over")
    (Some 10) (Some 4) = None.
Proof.
  apply (chunk_text_stuck_cursor 1000 settings
           (lit "the quick brown fox jumps over") (Some 10) (Some 4) 5).
  - reflexivity.
  - apply (reach_step (lit "the quick brown fox jumps over") 10 4 0);
      [constructor | reflexivity].
  - reflexivity.
  - reflexivity.
Defined.

(** X9.  If every position the cursor reaches below the end of the text
    is followed by a larger one, [chunk_text] returns within
    [len text + 1] passes of its loop. *)
Theorem chunk_text_returns_on_progress cfg text chunk_size overlap :
  (forall s,
     cursor_reach text (int_or chunk_size (CHUNK_SIZE cfg))
       (int_or overlap (CHUNK_OVERLAP cfg)) s ->
     s < len text ->
     s < window_end text (int_or chunk_size (CHUNK_SIZE cfg)) s
         - int_or overlap (CHUNK_OVERLAP cfg)) ->
  exists res,
    chunk_text (S (Z.to_nat (len text))) cfg text chunk_size overlap
    = Some res.
Proof.
  intros P. unfold chunk_text.
  destruct (len text <=? int_or chunk_size (CHUNK_SIZE cfg));
    [eexists; reflexivity|].
  apply loop_returns; cbn [start]; [exact P | constructor|].
  pose proof (len_nonneg text). lia.
Qed.

(** A text without spaces advances by [chunk_size - overlap] at every
    pass. *)
Lemma chunk_text_returns_on_progress_witness :
  exists res,
    chunk_text 11 settings (lit "abcdefghij") (Some 4) (Some 1) = Some res.
Proof.
  apply (chunk_text_returns_on_progress settings (lit "abcdefghij")
           (Some 4) (Some 1)).
  intros s R Hs.
  assert (forall i : nat, lit "abcdefghij" !! i <> Some " "%char) as Hsp.
  { intros i. do 10 (destruct i as [|i]; [discriminate|]). discriminate. }
  assert (0 <= s) as H0.
  { revert R. apply cursor_nonneg; [simpl; lia|]. intros i _. apply Hsp. }
  change (int_or (Some 4) (CHUNK_SIZE settings)) with 4.
  change (int_or (Some 1) (CHUNK_OVERLAP settings)) with 1.
  rewrite (window_end_no_space _ 4 s Hsp H0). lia.
Defined.

End ChunkerEndProps.

(** ** The confidence gate and the answers *)

Section AnswerProps.

Import AI Inputs.

Local Open Scope Q_scope.

Lemma clamp01_mono x y : x <= y -> clamp01 x <= clamp01 y.
Proof.
  intros H. unfold clamp01.
  apply Q.max_le_compat_l. apply Q.min_le_compat_l. exact H.
Qed.

(** X10.  With the sources fixed, of two responses that both contain an
    uncertainty phrase or both contain none, the longer one never has the
    lower confidence. *)
Theorem confidence_monotone_in_length r1 r2 srcs :
  (len r1 <= len r2)%Z ->
  has_uncertainty r1 = has_uncertainty r2 ->
  _calculate_confidence r1 srcs <= _calculate_confidence r2 srcs.
Proof.
  intros L U. rewrite !calculate_confidence_spec. unfold confidence_spec.
  rewrite U. apply clamp01_mono.
  destruct (Z.ltb_spec 50 (len r1)); destruct (Z.ltb_spec 50 (len r2));
    destruct (Z.ltb_spec 100 (len r1)); destruct (Z.ltb_spec 100 (len r2));
    try lia; lra.
Qed.

Lemma confidence_monotone_in_length_witness :
  _calculate_confidence (repeat "a"%char 40) [password_article]
  <= _calculate_confidence (repeat "a"%char 60) [password_article]
  /\ _calculate_confidence (repeat "a"%char 60) [password_article]
     <= _calculate_confidence (repeat "a"%char 110) [password_article].
Proof.
  split; apply confidence_monotone_in_length;
    solve [vm_compute; discriminate | reflexivity].
Defined.

(** The confidence is above 0.3 unless the response is an uncertain one
    of at most 50 characters with no source of positive mean score. *)
Lemma confidence_above_gate response srcs :
  Forall (fun s => 0 <= score s <= 1) srcs ->
  (0.3 < _calculate_confidence response srcs
   <-> has_uncertainty response = false
       \/ (50 < len response)%Z
       \/ (truthy srcs = true /\ 0 < mean_score srcs)).
Proof.
  intros F. rewrite calculate_confidence_spec. unfold confidence_spec.
  pose proof (bonus_bounds (len response) srcs F) as B.
  assert (0 <= (if truthy srcs then mean_score srcs * 0.3 else 0)) as M.
  { destruct (truthy srcs) eqn:T; [|lra].
    destruct (mean_bounds srcs T F). lra. }
  destruct (has_uncertainty response).
  - rewrite clamp01_id by lra.
    destruct (Z.ltb_spec 50 (len response));
      destruct (Z.ltb_spec 100 (len response)); try lia.
    + split; [intros _; right; left; assumption | intros _; lra].
    + split; [intros _; right; left; assumption | intros _; lra].
    + destruct (truthy srcs) eqn:T.
      * split.
        -- intros G. right. right. split; [reflexivity | lra].
        -- intros [G | [G | [_ G]]]; [discriminate | lia | lra].
      * split.
        -- intros G. lra.
        -- intros [G | [G | [G _]]]; [discriminate | lia | discriminate].
  - rewrite clamp01_id by lra. split; [intros _; left; reflexivity|].
    intros _. lra.
Qed.

Lemma mean_score_zero srcs :
  Forall (fun s => score s == 0) srcs -> mean_score srcs == 0.
Proof.
  intros F. unfold mean_score.
  assert (fold_right (fun s acc => score s + acc) 0 srcs == 0) as ->.
  { induction F as [|s srcs Hs F IH]; [reflexivity|].
    cbn [fold_right]. rewrite Hs, IH. reflexivity. }
  reflexivity.
Qed.

(** X11.  For sources with scores in [0, 1]: a generated response that
    contains no uncertainty phrase, or that is longer than 50 characters,
    is surfaced as an answer exactly when its trimmed text has more than
    10 characters; a response of at most 50 characters that contains an
    uncertainty phrase is never surfaced when there is no source or every
    source has score 0, its confidence being 0.5 - 0.2, which is not above
    the threshold of 0.3. *)
Theorem has_answer_characterised response question_ srcs :
  Forall (fun s => 0 <= score s <= 1) srcs ->
  (has_uncertainty response = false \/ (50 < len response)%Z ->
   has_answer (_parse_answer_response response question_ srcs)
   = (10 <? len (strip response))%Z)
  /\ (has_uncertainty response = true ->
      (len response <= 50)%Z ->
      Forall (fun s => score s == 0) srcs ->
      has_answer (_parse_answer_response response question_ srcs) = false).
Proof.
  intros F. pose proof (confidence_above_gate response srcs F) as G.
  unfold _parse_answer_response. cbn [has_answer]. rewrite Z.gtb_ltb.
  split.
  - intros H.
    assert (0.3 < _calculate_confidence response srcs) as C.
    { apply G. destruct H as [H | H]; [left | right; left]; exact H. }
    destruct (Qle_bool (_calculate_confidence response srcs) 0.3) eqn:E;
      [|reflexivity].
    apply Qle_bool_iff in E. lra.
  - intros U L Z.
    destruct (Qle_bool (_calculate_confidence response srcs) 0.3) eqn:E;
      [reflexivity|].
    exfalso.
    assert (0.3 < _calculate_confidence response srcs) as C.
    { apply Qnot_le_lt. intros N. apply Qle_bool_iff in N. congruence. }
    apply G in C. destruct C as [C | [C | [_ C]]].
    + congruence.
    + lia.
    + rewrite (mean_score_zero srcs Z) in C. lra.
Qed.

(** The reply "i don't know", twelve characters, is not surfaced without a
    source; a reply of 29 characters without an uncertainty phrase is. *)
Lemma has_answer_characterised_witness :
  has_answer (_parse_answer_response (lit "i don't know") [] []) = false
  /\ has_answer (_parse_answer_response
                   (lit "Reset it from the login page.") []
                   [password_article]) = true.
Proof.
  split.
  - apply (has_answer_characterised (lit "i don't know") [] []).
    + constructor.
    + reflexivity.
    + vm_compute. discriminate.
    + constructor.
  - destruct (has_answer_characterised
                (lit "Reset it from the login page.") []
                [password_article]) as [A _].
    + repeat constructor; simpl; unfold Qle; simpl; lia.
    + rewrite A; [reflexivity|]. left. reflexivity.
Defined.

End AnswerProps.

Section AnswerFlowProps.

Import AI Inputs MoreInputs.

Lemma slice_to_firstn {A} (l : list A) k :
  0 <= k -> slice_to l k = take (Z.to_nat k) l.
Proof.
  intros Hk. unfold slice_to, slice.
  pose proof (len_nonneg l).
  unfold norm_index. destruct (Z.ltb_spec 0 0); [lia|].
  destruct (Z.ltb_spec k 0); [lia|].
  rewrite (Z.min_l 0 (len l)) by lia.
  simpl (Z.to_nat 0). rewrite drop_0, Z.sub_0_r.
  destruct (Z.le_ge_cases k (len l)).
  - rewrite Z.min_l by lia. reflexivity.
  - rewrite Z.min_r by lia. unfold len in *.
    rewrite !take_ge by lia. reflexivity.
Qed.

(** X12.  Every answer of [answer_question], the fallback included,
    repeats the question and the sources it was given, has a confidence
    in [0, 1], a trimmed answer text and at most three suggestions, and
    carries suggestions only when [has_answer] is false. *)
Theorem answer_question_shape
  (generate : pystr -> result pystr) (question_ : pystr)
  (arts : list KBSearchResult) (extra : option pystr) :
  let a := answer_question generate question_ arts extra in
  question a = question_
  /\ sources a = arts
  /\ (0 <= confidence a <= 1)%Q
  /\ strip (answer a) = answer a
  /\ (length (suggestions a) <= 3)%nat
  /\ (has_answer a = true -> suggestions a = []).
Proof.
  intros a. subst a. unfold answer_question.
  destruct (generate _) as [r|e].
  - unfold _parse_answer_response.
    cbn [question sources confidence answer suggestions has_answer].
    split; [reflexivity|]. split; [reflexivity|].
    split.
    { pose proof (calculate_confidence_spec r arts) as E.
      rewrite E. unfold confidence_spec, clamp01. split.
      - apply Q.le_max_l.
      - apply Q.max_lub; [lra | apply Q.le_min_l]. }
    split; [apply strip_idem|].
    split.
    + destruct (negb _ && truthy arts); [|simpl; lia].
      rewrite length_map, slice_to_firstn by lia. rewrite length_take. lia.
    + intros ->. reflexivity.
  - cbn [fallback question sources confidence answer suggestions has_answer].
    split; [reflexivity|]. split; [reflexivity|].
    split; [lra|]. split; [reflexivity|]. split; [simpl; lia | discriminate].
Qed.

Lemma numbered_depends arts1 : forall arts2 i,
  map (fun a => (title a, slice_to (content a) 500)) arts1
  = map (fun a => (title a, slice_to (content a) 500)) arts2 ->
  numbered i arts1 = numbered i arts2.
Proof.
  induction arts1 as [|a arts1 IH]; intros [|b arts2] i E;
    try discriminate; [reflexivity|].
  simpl in E. injection E as Et Ec Er.
  cbn [numbered]. rewrite Et, Ec, (IH arts2 (S i) Er). reflexivity.
Qed.

(** X13.  The context of the prompt is built from the titles and the
    first 500 characters of the content of the first three articles
    only: article lists that agree on these give the same context. *)
Theorem build_context_top_three arts1 arts2 extra :
  map (fun a => (title a, slice_to (content a) 500)) (slice_to arts1 3)
  = map (fun a => (title a, slice_to (content a) 500)) (slice_to arts2 3) ->
  _build_context arts1 extra = _build_context arts2 extra.
Proof.
  intros E. unfold _build_context.
  rewrite (numbered_depends _ _ 1 E).
  assert (truthy arts1 = truthy arts2) as ->; [|reflexivity].
  rewrite !slice_to_firstn in E by lia.
  destruct arts1, arts2; try reflexivity; discriminate.
Qed.

Lemma build_context_top_three_witness :
  _build_context
    [password_article; password_article; long_article_1; password_article]
    None
  = _build_context [password_article; password_article; long_article_2]
      None.
Proof.
  apply build_context_top_three. reflexivity.
Defined.

End AnswerFlowProps.

(** ** Keywords, summaries and rewriting *)

Section KeywordProps.

Import AIFlows.

Lemma split_on_no_sep sep s : forall cur,
  ~ In sep cur ->
  Forall (fun p => ~ In sep p) (split_on sep s cur).
Proof.
  induction s as [|c s IH]; intros cur Hcur; cbn [split_on].
  - constructor; [|constructor]. intros H. apply in_rev in H. auto.
  - destruct (Ascii.eqb_spec c sep) as [->|Hne].
    + constructor; [|apply IH; intros []].
      intros H. apply in_rev in H. auto.
    + apply IH. intros [H|H]; auto.
Qed.

Lemma strip_no_new_char c s : ~ In c s -> ~ In c (strip s).
Proof.
  intros H Hin. apply H.
  destruct (strip_split s) as (w1 & w2 & E & _).
  rewrite E. apply in_or_app. right. apply in_or_app. left. exact Hin.
Qed.

(** X14.  Whatever the reply, the parsed keywords are at most ten, and
    each has more than two characters, no whitespace at either end and no
    comma. *)
Theorem parse_keywords_shape response :
  (length (_parse_keywords_response response) <= 10)%nat
  /\ Forall (fun kw => 2 < len kw /\ strip kw = kw /\ ~ In ","%char kw)
       (_parse_keywords_response response).
Proof.
  unfold _parse_keywords_response.
  set (body := if startswith (strip response) (lit "Keywords:")
               then strip (slice_from (strip response) 9)
               else strip response).
  rewrite slice_to_firstn by lia. split; [rewrite length_take; lia|].
  apply List.Forall_forall. intros kw Hin.
  apply list_elem_of_In, elem_of_take in Hin.
  destruct Hin as (i & Hin & _). apply list_elem_of_lookup_2 in Hin.
  apply list_elem_of_In, filter_In in Hin. destruct Hin as [Hin Hf].
  apply andb_true_iff in Hf. destruct Hf as [_ Hl].
  apply in_map_iff in Hin. destruct Hin as (piece & <- & Hp).
  split; [lia|]. split; [apply strip_idem|].
  apply strip_no_new_char.
  pose proof (split_on_no_sep ","%char body [] (fun H => H)) as F.
  rewrite List.Forall_forall in F. apply F. exact Hp.
Qed.

Lemma no_lead_strip s : no_lead (strip s).
Proof. unfold strip. apply rstrip_no_lead, lstrip_no_lead. Qed.

Lemma no_trail_strip s : no_lead (rev (strip s)).
Proof.
  unfold strip, rstrip. rewrite rev_involutive. apply lstrip_no_lead.
Qed.

Lemma strip_id s : no_lead s -> no_lead (rev s) -> strip s = s.
Proof.
  intros H1 H2. unfold strip, rstrip.
  rewrite (lstrip_id s H1), (lstrip_id (rev s) H2). apply rev_involutive.
Qed.

Lemma strip_fixed s : strip s = s -> no_lead s /\ no_lead (rev s).
Proof.
  intros E. rewrite <- E. split; [apply no_lead_strip | apply no_trail_strip].
Qed.

Lemma no_lead_app_l s t : s <> [] -> no_lead s -> no_lead (s ++ t).
Proof. destruct s; [contradiction | auto]. Qed.

Lemma no_trail_app s t : t <> [] -> no_lead (rev t) -> no_lead (rev (s ++ t)).
Proof.
  intros Hne H. rewrite rev_app_distr. apply no_lead_app_l; [|exact H].
  intros E. apply (f_equal (@rev ascii)) in E.
  rewrite rev_involutive in E. auto.
Qed.

Lemma keyword_nonempty kw : keyword_ok kw -> kw <> [].
Proof. intros [H _] ->. unfold len in H. simpl in H. lia. Qed.

Lemma join_keywords_trimmed ks :
  ks <> [] -> Forall keyword_ok ks ->
  join (lit ", ") ks <> []
  /\ no_lead (join (lit ", ") ks)
  /\ no_lead (rev (join (lit ", ") ks)).
Proof.
  intros Hne F. induction F as [|k ks Hk F IH]; [contradiction|].
  pose proof (keyword_nonempty k Hk) as Hkn.
  destruct Hk as (_ & Hs & _). apply strip_fixed in Hs. destruct Hs as [L T].
  cbn [join]. destruct ks as [|k2 ks]; [auto|].
  destruct IH as (IH1 & IH2 & IH3); [discriminate|].
  split; [destruct k; [contradiction | discriminate]|].
  split; [apply no_lead_app_l; assumption|].
  rewrite app_assoc. apply no_trail_app; assumption.
Qed.

Lemma split_on_piece sep k t : forall cur,
  ~ In sep k ->
  split_on sep (k ++ t) cur = split_on sep t (rev k ++ cur).
Proof.
  induction k as [|c k IH]; intros cur Hk; [reflexivity|].
  simpl app. cbn [split_on].
  destruct (Ascii.eqb_spec c sep) as [->|Hne]; [exfalso; apply Hk; left; reflexivity|].
  rewrite IH by (intros H; apply Hk; right; exact H).
  simpl rev. rewrite <- app_assoc. reflexivity.
Qed.

Lemma split_on_join ks : forall pre,
  ks <> [] -> Forall keyword_ok ks -> ~ In ","%char pre ->
  exists k rest,
    ks = k :: rest
    /\ split_sep ","%char (pre ++ join (lit ", ") ks)
       = (pre ++ k) :: map (fun x => " "%char :: x) rest.
Proof.
  unfold split_sep.
  induction ks as [|k ks IH]; intros pre Hne F Hpre; [contradiction|].
  inversion F as [|? ? Hk F']; subst.
  exists k, ks. split; [reflexivity|].
  destruct Hk as (_ & _ & Hc).
  cbn [join]. destruct ks as [|k2 ks].
  - rewrite <- (app_nil_r (pre ++ k)) at 1.
    rewrite split_on_piece.
    + cbn [split_on]. rewrite app_nil_r, rev_involutive. reflexivity.
    + intros H. apply in_app_or in H. tauto.
  - rewrite app_assoc, split_on_piece
      by (intros H; apply in_app_or in H; tauto).
    change (lit ", " ++ join (lit ", ") (k2 :: ks))
      with (","%char :: [" "%char] ++ join (lit ", ") (k2 :: ks)).
    cbn [split_on]. change (Ascii.eqb ","%char ","%char) with true.
    cbv iota. rewrite app_nil_r, rev_involutive.
    destruct (IH [" "%char]) as (k' & rest' & E & S);
      [discriminate | assumption | |].
    { intros [H|[]]. discriminate H. }
    injection E as <- <-. rewrite S. reflexivity.
Qed.

Lemma strip_space_cons k : strip k = k -> strip (" "%char :: k) = k.
Proof.
  intros E. unfold strip. cbn [lstrip]. change (isspace " "%char) with true.
  cbv iota. exact E.
Qed.

Lemma slice_from_app {A} (p rest : list A) :
  slice_from (p ++ rest) (len p) = rest.
Proof.
  unfold slice_from, slice. rewrite len_app.
  pose proof (len_nonneg p). pose proof (len_nonneg rest).
  unfold norm_index.
  destruct (Z.ltb_spec (len p) 0); [lia|].
  destruct (Z.ltb_spec (len p + len rest) 0); [lia|].
  rewrite !Z.min_l by lia.
  unfold len. rewrite Nat2Z.id, drop_app_length.
  apply take_ge. lia.
Qed.

(** X15.  A reply made of the label "Keywords: " and of one to ten
    keywords separated by ", ", each of more than two characters, trimmed
    and without a comma, is parsed back to exactly these keywords. *)
Theorem parse_keywords_round_trip ks :
  ks <> [] -> (length ks <= 10)%nat ->
  Forall (fun kw => 2 < len kw /\ strip kw = kw /\ ~ In ","%char kw) ks ->
  _parse_keywords_response (lit "Keywords: " ++ join (lit ", ") ks) = ks.
Proof.
  intros Hne Hlen F. fold keyword_ok in F.
  destruct (join_keywords_trimmed ks Hne F) as (J1 & J2 & J3).
  unfold _parse_keywords_response.
  assert (strip (lit "Keywords: " ++ join (lit ", ") ks)
          = lit "Keywords:" ++ " "%char :: join (lit ", ") ks) as ->.
  { apply strip_id; [reflexivity|].
    apply (no_trail_app (lit "Keywords: ")); assumption. }
  rewrite startswith_app.
  change 9 with (len (lit "Keywords:")). rewrite slice_from_app.
  rewrite strip_space_cons by (apply strip_id; assumption).
  destruct (split_on_join ks [] Hne F (fun H => H)) as (k & rest & -> & S).
  rewrite !app_nil_l in S. rewrite S. cbn [map].
  assert (map strip (map (fun x => " "%char :: x) rest) = rest) as ->.
  { inversion F as [|? ? _ F']; subst. clear - F'.
    induction F' as [|x rest (_ & Hx & _) F' IH]; [reflexivity|].
    cbn [map]. rewrite strip_space_cons by exact Hx. rewrite IH.
    reflexivity. }
  assert (strip k = k) as ->.
  { inversion F as [|? ? (_ & Hk & _) _]; subst. exact Hk. }
  assert (List.filter (fun kw => truthy kw && (len kw >? 2)) (k :: rest)
          = k :: rest) as ->.
  { apply forallb_filter_id. apply forallb_forall. intros x Hx.
    rewrite List.Forall_forall in F. destruct (F x Hx) as (Hl & _).
    apply andb_true_iff. split.
    - destruct x; [unfold len in Hl; simpl in Hl; lia | reflexivity].
    - apply Z.gtb_lt. exact Hl. }
  rewrite slice_to_firstn by lia. apply take_ge. simpl in *. lia.
Qed.

Lemma parse_keywords_round_trip_witness :
  _parse_keywords_response (lit "Keywords: password, reset link, security")
  = [lit "password"; lit "reset link"; lit "security"].
Proof.
  apply (parse_keywords_round_trip
           [lit "password"; lit "reset link"; lit "security"]).
  - discriminate.
  - simpl. lia.
  - repeat constructor; try reflexivity;
      simpl; intros H;
      repeat (destruct H as [H|H]; [discriminate H|]); exact H.
Defined.

End KeywordProps.

Section FlowProps.

Import AIFlows.

Variable generate : pystr -> result pystr.

(** X16.  When the generation endpoint fails on every prompt, none of the
    three flows raises: the summary is the content itself when it has at
    most 200 characters and otherwise its first 200 characters followed
    by an ellipsis, the keywords are the empty list, and the improved
    content is the content unchanged. *)
Theorem flows_fall_back title_ content_ feedback :
  (forall prompt, exists e, generate prompt = Raise e) ->
  len (generate_article_summary generate title_ content_) <= 203
  /\ slice_to (generate_article_summary generate title_ content_) 200
     = slice_to content_ 200
  /\ (len content_ <= 200 ->
      generate_article_summary generate title_ content_ = content_)
  /\ (200 < len content_ ->
      generate_article_summary generate title_ content_
      = slice_to content_ 200 ++ lit "...")
  /\ suggest_keywords generate title_ content_ = []
  /\ improve_content generate content_ feedback = content_.
Proof.
  intros Hfail.
  unfold generate_article_summary, suggest_keywords, improve_content.
  destruct (Hfail (_create_summary_prompt title_ content_)) as [e1 ->].
  destruct (Hfail (_create_keywords_prompt title_ content_)) as [e2 ->].
  destruct (Hfail (_create_improvement_prompt content_ feedback)) as [e3 ->].
  pose proof (length_leading content_ 200) as L. unfold Search.leading in L.
  split; [apply L; lia|].
  destruct (Z.gtb_spec (len content_) 200) as [G|G].
  - split.
    + rewrite !slice_to_firstn by lia.
      rewrite take_app_le by (rewrite length_take; unfold len in G; lia).
      rewrite take_take. f_equal.
    + split; [lia|]. split; [reflexivity|]. split; reflexivity.
  - split; [reflexivity|]. split; [reflexivity|].
    split; [lia|]. split; reflexivity.
Qed.

(** X17.  When the endpoint replies, the summary and the improved content
    have no whitespace at either end; a summary reply whose trimmed text
    starts with the label "Summary:" is returned without that label. *)
Theorem flows_trim_replies title_ content_ feedback :
  (forall r, generate (_create_summary_prompt title_ content_) = Ok r ->
     strip (generate_article_summary generate title_ content_)
     = generate_article_summary generate title_ content_
     /\ forall rest, strip r = lit "Summary:" ++ rest ->
          generate_article_summary generate title_ content_ = strip rest)
  /\ (forall r,
        generate (_create_improvement_prompt content_ feedback) = Ok r ->
        improve_content generate content_ feedback = strip r
        /\ strip (improve_content generate content_ feedback)
           = improve_content generate content_ feedback).
Proof.
  unfold generate_article_summary, improve_content. split.
  - intros r ->. split.
    + destruct (startswith (strip r) (lit "Summary:")); apply strip_idem.
    + intros rest E. rewrite E, startswith_app.
      change 8 with (len (lit "Summary:")). rewrite slice_from_app.
      reflexivity.
  - intros r ->. split; [reflexivity | apply strip_idem].
Qed.

End FlowProps.

Section FlowWitnesses.

Import AIFlows Inputs.

Lemma flows_fall_back_witness :
  generate_article_summary failing_provider (lit "Reset") password_content
  = password_content
  /\ suggest_keywords failing_provider (lit "Reset") password_content = []
  /\ improve_content failing_provider password_content (lit "shorter")
     = password_content.
Proof.
  destruct (flows_fall_back failing_provider (lit "Reset") password_content
              (lit "shorter")) as (_ & _ & S & _ & K & I).
  - intros prompt. exists ProviderError. reflexivity.
  - split; [apply S; vm_compute; discriminate|]. split; assumption.
Defined.

Lemma flows_trim_replies_witness :
  generate_article_summary
    (fun _ => Ok (lit "  Summary: Reset it in Settings. "))
    (lit "Reset") password_content
  = lit "Reset it in Settings.".
Proof.
  destruct (flows_trim_replies
              (fun _ => Ok (lit "  Summary: Reset it in Settings. "))
              (lit "Reset") password_content [])
    as [S _].
  destruct (S _ eq_refl) as [_ R].
  rewrite (R (lit " Reset it in Settings.")); reflexivity.
Defined.

End FlowWitnesses.

(** ** Indexing, deleting and searching *)

Section IndexProps.

Import Search Index SearchService Hits Inputs MoreInputs.

Variable model : option (pystr -> list float).
Variable nearest :
  gmap string PointStruct -> SearchArgs -> result (list ScoredPoint).
Variable refused : gmap string PointStruct -> Request -> option exn.
Variable cfg : Settings.

Lemma search_similar_stored request w :
  stored (snd (search_similar model nearest cfg request w)) = stored w.
Proof.
  unfold search_similar, mbind, svc_bind, lift, search.
  destruct (generate_embedding model cfg (sim_text request));
    [|reflexivity].
  destruct (nearest _ _); reflexivity.
Qed.

Lemma search_articles_stored request w :
  stored (snd (search_articles model nearest cfg request w)) = stored w.
Proof.
  unfold search_articles, mbind, svc_bind, lift, search.
  destruct (generate_embedding model cfg (query request));
    [|reflexivity].
  destruct (nearest _ _); reflexivity.
Qed.

(** Neither search changes the points of the index, whether it
    returns or raises. *)
Theorem searches_read_only sim_request kb_request w :
  stored (snd (search_similar model nearest cfg sim_request w)) = stored w
  /\ stored (snd (search_articles model nearest cfg kb_request w))
     = stored w.
Proof. split; [apply search_similar_stored | apply search_articles_stored]. Qed.

(** X20.  While the embedding model is not loaded, indexing and both
    searches raise [RuntimeError] before any call reaches the index: its
    points and the calls it has received are unchanged. *)
Theorem unloaded_model_raises
  article_id title_ content_ metadata sim_request kb_request w :
  model = None ->
  index_article model refused cfg article_id title_ content_ metadata w
  = (Raise (RuntimeError (lit "Embedding model not initialized")), w)
  /\ search_similar model nearest cfg sim_request w
     = (Raise (RuntimeError (lit "Embedding model not initialized")), w)
  /\ search_articles model nearest cfg kb_request w
     = (Raise (RuntimeError (lit "Embedding model not initialized")), w).
Proof.
  intros M.
  unfold index_article, search_similar, search_articles, mbind, svc_bind,
    lift, generate_embedding.
  rewrite M. repeat split; reflexivity.
Qed.

End IndexProps.

Section ResultProps.

Import Search Index SearchService Hits Inputs MoreInputs.

Lemma collect_ok {A B} (f : A -> result B) xs : forall ys,
  collect f xs = Ok ys -> Forall2 (fun x y => f x = Ok y) xs ys.
Proof.
  induction xs as [|x xs IH]; intros ys; cbn [collect].
  - intros [= <-]. constructor.
  - destruct (f x) as [y|e] eqn:Fx; [|discriminate].
    destruct (collect f xs) as [ys'|e]; [|discriminate].
    intros [= <-]. constructor; [exact Fx | apply IH; reflexivity].
Qed.

Lemma collect_raise {A B} (f : A -> result B) xs x e :
  In x xs -> f x = Raise e -> exists e', collect f xs = Raise e'.
Proof.
  induction xs as [|a xs IH]; intros Hin Hx; [contradiction|].
  cbn [collect]. destruct Hin as [->|Hin].
  - rewrite Hx. eauto.
  - destruct (f a); [|eauto].
    destruct (IH Hin Hx) as [e' ->]. eauto.
Qed.

(** The conversion of [search_similar] raises nothing but [KeyError]. *)
Lemma similarity_result_error h e :
  similarity_result h = Raise e -> exists k, e = KeyError k.
Proof.
  unfold similarity_result, getitem.
  destruct (sp_payload h !! "title"); [|intros [= <-]; eauto].
  destruct (sp_payload h !! "content"); [discriminate|].
  intros [= <-]. eauto.
Qed.

Lemma collect_key_error hits h :
  In h hits ->
  (exists k, similarity_result h = Raise (KeyError k)) ->
  exists k, collect similarity_result hits = Raise (KeyError k).
Proof.
  induction hits as [|a hits IH]; intros Hin Hh; [contradiction|].
  cbn [collect]. destruct (similarity_result a) as [r|e] eqn:Ea.
  - destruct Hin as [->|Hin]; [destruct Hh as [k Hk]; congruence|].
    destruct (IH Hin Hh) as [k ->]. eauto.
  - destruct (similarity_result_error a e Ea) as [k ->]. eauto.
Qed.

Lemma enumerate_lookup {A} (xs : list A) : forall k (i : nat) j x,
  enumerate k xs !! i = Some (j, x) ->
  j = k + Z.of_nat i /\ xs !! i = Some x.
Proof.
  induction xs as [|a xs IH]; intros k i j x; [destruct i; discriminate|].
  destruct i as [|i]; cbn [enumerate].
  - intros [= <- <-]. split; [lia | reflexivity].
  - intros H. apply IH in H. simpl. split; [lia | apply H].
Qed.

Lemma length_enumerate {A} (xs : list A) : forall k,
  length (enumerate k xs) = length xs.
Proof. induction xs; intros k; simpl; [|rewrite IHxs]; reflexivity. Qed.

Lemma article_result_ok request i h r :
  article_result request (i, h) = Ok r ->
  kb_id r = sp_id h /\ score r = sp_score h
  /\ rank r = offset request + i + 1
  /\ sp_payload h !! "title" = Some (VStr (title r))
  /\ sp_payload h !! "content" = Some (VStr (content r))
  /\ snippet r = _generate_snippet (content r) (query request) 200
  /\ is_Some (sp_payload h !! "created_at")
  /\ is_Some (sp_payload h !! "updated_at").
Proof.
  unfold article_result, getitem. cbn [fst snd].
  destruct (sp_payload h !! "content") as [c|]; [|discriminate].
  destruct c; cbn [as_str]; try discriminate.
  destruct (sp_payload h !! "title") as [t|]; [|discriminate].
  destruct (sp_payload h !! "created_at") as [ca|]; [|discriminate].
  destruct (sp_payload h !! "updated_at") as [ua|]; [|discriminate].
  destruct t; cbn [as_str]; try discriminate.
  intros [= <-].
  cbn [kb_id score rank title content snippet].
  repeat split; eauto.
Qed.

Variable model : option (pystr -> list float).
Variable nearest :
  gmap string PointStruct -> SearchArgs -> result (list ScoredPoint).
Variable refused : gmap string PointStruct -> Request -> option exn.
Variable cfg : Settings.

(** X21.  When [search_articles] returns, it returns one article for
    each hit of the index, in the order of the hits: the article at
    position [i] has the id and the score of hit [i], the rank
    [offset + i + 1], the title and content strings of the hit's payload
    and a snippet of the content of at most 206 characters. *)
Theorem search_articles_results request w rs :
  fst (search_articles model nearest cfg request w) = Ok rs ->
  exists args hits,
    nearest (stored w) args = Ok hits
    /\ search_limit args = limit request
    /\ search_offset args = Some (offset request)
    /\ length rs = length hits
    /\ forall (i : nat) r h,
         rs !! i = Some r -> hits !! i = Some h ->
         kb_id r = sp_id h /\ score r = sp_score h
         /\ rank r = offset request + Z.of_nat i + 1
         /\ sp_payload h !! "title" = Some (VStr (title r))
         /\ sp_payload h !! "content" = Some (VStr (content r))
         /\ snippet r = _generate_snippet (content r) (query request) 200
         /\ len (snippet r) <= 206.
Proof.
  unfold search_articles, mbind, svc_bind, lift, search.
  destruct (generate_embedding model cfg (query request)) as [v|e];
    [|discriminate].
  match goal with |- context [nearest (stored w) ?a] => set (args := a) end.
  destruct (nearest (stored w) args) as [hits|e] eqn:N; [|discriminate].
  cbn [fst]. intros C. apply collect_ok in C.
  exists args, hits. split; [exact N|].
  split; [reflexivity|]. split; [reflexivity|].
  pose proof (Forall2_length _ _ _ C) as L.
  rewrite length_enumerate in L. split; [congruence|].
  intros i r h Hr Hh.
  destruct (Forall2_lookup_r _ _ _ _ _ C Hr) as ([j h'] & Hj & A).
  apply enumerate_lookup in Hj. destruct Hj as [-> Hh'].
  assert (h' = h) as -> by congruence.
  apply article_result_ok in A.
  destruct A as (A1 & A2 & A3 & A4 & A5 & A6 & _).
  split; [exact A1|]. split; [exact A2|]. split; [lia|].
  split; [exact A4|]. split; [exact A5|]. split; [exact A6|].
  rewrite A6. apply (length_snippet (content r) (query request) 200). lia.
Qed.

(** X22.  When [search_similar] returns, it returns one result for each
    hit of the index, with the ids and scores of the hits in their order,
    and every hit has a title and a content in its payload; when the
    index answers the search sent with hits of which one lacks a title or
    a content, [search_similar] raises [KeyError]. *)
Theorem search_similar_results request w :
  (forall rs,
     fst (search_similar model nearest cfg request w) = Ok rs ->
     exists args hits,
       nearest (stored w) args = Ok hits
       /\ map sr_id rs = map sp_id hits
       /\ map sr_score rs = map sp_score hits
       /\ Forall has_title_and_content hits)
  /\ (forall v hits h,
        generate_embedding model cfg (sim_text request) = Ok v ->
        nearest (stored w)
          {| collection_name := lit "kb_articles";
             query_vector := v;
             query_filter :=
               _build_filter_conditions (sim_tenant_id request)
                 (sim_project_id request) None;
             search_limit := sim_limit request;
             search_offset := None;
             score_threshold := sim_threshold request |} = Ok hits ->
        In h hits -> ~ has_title_and_content h ->
        exists k,
          fst (search_similar model nearest cfg request w)
          = Raise (KeyError k)).
Proof.
  unfold search_similar, mbind, svc_bind, lift, search. split.
  - intros rs.
    destruct (generate_embedding model cfg (sim_text request)) as [v|e];
      [|discriminate].
    match goal with |- context [nearest (stored w) ?a] => set (args := a) end.
    destruct (nearest (stored w) args) as [hits|e] eqn:N; [|discriminate].
    cbn [fst]. intros C. apply collect_ok in C.
    exists args, hits. split; [exact N|].
    clear N. induction C as [|h r hits rs Hh C IH]; [repeat split; constructor|].
    destruct IH as (I1 & I2 & I3).
    unfold similarity_result, getitem in Hh.
    destruct (sp_payload h !! "title") as [t|] eqn:T; [|discriminate].
    destruct (sp_payload h !! "content") as [c|] eqn:Cn; [|discriminate].
    injection Hh as <-. cbn [map sr_id sr_score].
    split; [f_equal; exact I1|]. split; [f_equal; exact I2|].
    constructor; [|exact I3]. split; [rewrite T | rewrite Cn]; eauto.
  - intros v hits h -> Hn Hin Hbad.
    change collection with (lit "kb_articles"). rewrite Hn. cbn [fst].
    apply (collect_key_error hits h); [exact Hin|].
    unfold similarity_result, getitem. unfold has_title_and_content in Hbad.
    destruct (sp_payload h !! "title") as [t|]; [|eauto].
    destruct (sp_payload h !! "content") as [c|]; [|eauto].
    exfalso. apply Hbad. split; eauto.
Qed.

(** X23.  With the model loaded, the point [index_article] sends to the
    index always has a title and a content, so [search_similar] converts
    a hit of that point without raising; when the metadata given at
    indexing lacks "created_at" or "updated_at", the conversion of
    [search_articles] raises on such a hit.  When the index accepts the
    upsert, this point is the one stored under the article id. *)
Theorem indexed_point_as_hit enc article_id title_ content_ metadata w :
  model = Some enc ->
  exists p,
    received (snd (index_article model refused cfg article_id title_
                     content_ metadata w))
    = received w ++ [Upsert (lit "kb_articles") [p]]
    /\ (fst (index_article model refused cfg article_id title_ content_
               metadata w) = Ok tt ->
        stored (snd (index_article model refused cfg article_id title_
                       content_ metadata w)) !! article_id = Some p)
    /\ (forall s, has_title_and_content (hit_of p s)
                  /\ exists r, similarity_result (hit_of p s) = Ok r)
    /\ (metadata !! "created_at" = None \/ metadata !! "updated_at" = None ->
        forall request i s,
          exists e, article_result request (i, hit_of p s) = Raise e).
Proof.
  intros M. rewrite (index_article_sent model refused cfg enc) by exact M.
  unfold upsert.
  match goal with |- context [write refused ?r ?a w] =>
    destruct (write_outcome refused r a w) as (R & S & _) end.
  eexists. split; [exact R|].
  split; [intros H; rewrite (S H); cbn [upsert_points id];
          apply lookup_insert_eq|].
  split.
  - intros s.
    assert (has_title_and_content
              (hit_of {| id := article_id;
                         vector := enc (_clean_text cfg
                                          (title_ ++ nl ++ nl ++ content_));
                         payload := metadata ∪ <["content" := VStr content_]>
                                      (<["title" := VStr title_]> ∅) |} s))
      as H.
    { unfold has_title_and_content, hit_of. cbn [sp_payload payload].
      rewrite payload_title, payload_content. split; eauto. }
    split; [exact H|].
    destruct H as [[t T] [c C]].
    unfold similarity_result, getitem. rewrite T, C. eauto.
  - intros Hmiss request i s.
    unfold article_result, getitem, hit_of. cbn [fst snd sp_payload payload].
    rewrite payload_title, payload_content.
    destruct (as_str _) as [cs|e]; [|eauto].
    assert (forall k, k <> "title" -> k <> "content" ->
              (metadata ∪ <["content" := VStr content_]>
                           (<["title" := VStr title_]> ∅)) !! k
              = metadata !! k) as Other.
    { intros k H1 H2. destruct (metadata !! k) eqn:E.
      - apply lookup_union_Some_l. exact E.
      - rewrite lookup_union_r by exact E.
        rewrite !lookup_insert_ne by congruence. apply lookup_empty. }
    rewrite !Other by discriminate.
    destruct Hmiss as [-> | H2]; [eauto|].
    destruct (metadata !! "created_at"); [|eauto].
    rewrite H2. eauto.
Qed.

End ResultProps.

Section IndexWitnesses.

Import Search Index SearchService Hits Inputs MoreInputs.

Lemma unloaded_model_raises_witness :
  search_similar None (fixed_index [full_hit]) settings
    sample_similarity_request empty_index
  = (Raise (RuntimeError (lit "Embedding model not initialized")),
     empty_index).
Proof.
  destruct (unloaded_model_raises None (fixed_index [full_hit]) accepting
              settings article_uuid [] [] ∅ sample_similarity_request
              sample_search_request empty_index eq_refl) as (_ & S & _).
  exact S.
Defined.

(** One hit, found at offset 20: the article returned has rank 21. *)
Lemma search_articles_results_witness :
  exists r,
    fst (search_articles (Some constant_encoder) (fixed_index [full_hit])
           settings sample_search_request empty_index) = Ok [r]
    /\ rank r = 21 /\ kb_id r = "a1" /\ len (snippet r) <= 206.
Proof.
  destruct (fst (search_articles (Some constant_encoder)
                   (fixed_index [full_hit]) settings sample_search_request
                   empty_index)) as [rs|e] eqn:E;
    [|vm_compute in E; discriminate E].
  destruct (search_articles_results (Some constant_encoder)
              (fixed_index [full_hit]) settings sample_search_request
              empty_index rs E) as (args & hits & N & _ & _ & L & P).
  injection N as <-.
  destruct rs as [|r [|r2 rs]]; try discriminate L.
  exists r. split; [reflexivity|].
  destruct (P 0%nat r full_hit eq_refl eq_refl)
    as (I & _ & R & _ & _ & _ & S).
  split; [exact R|]. split; [exact I | exact S].
Defined.

(** A hit without a title makes [search_similar] raise. *)
Lemma search_similar_results_witness :
  exists k,
    fst (search_similar (Some constant_encoder)
           (fixed_index [full_hit; untitled_hit]) settings
           sample_similarity_request empty_index) = Raise (KeyError k).
Proof.
  destruct (search_similar_results (Some constant_encoder)
              (fixed_index [full_hit; untitled_hit]) settings
              sample_similarity_request empty_index) as [_ F].
  apply (F (constant_encoder
              (_clean_text settings (sim_text sample_similarity_request)))
           [full_hit; untitled_hit] untitled_hit).
  - reflexivity.
  - reflexivity.
  - right. left. reflexivity.
  - intros [[t T] _]. vm_compute in T. discriminate T.
Defined.

(** An article indexed without metadata on an index that accepts it: it
    is stored, [search_similar] converts its hit and the conversion of
    [search_articles] raises. *)
Lemma indexed_point_as_hit_witness :
  exists p,
    stored (snd (index_article (Some constant_encoder) accepting settings
                   article_uuid (lit "Billing") (lit "How invoices work") ∅
                   empty_index)) !! article_uuid = Some p
    /\ (exists r, similarity_result (hit_of p (1 # 2)%Q) = Ok r)
    /\ (exists e,
          article_result sample_search_request (0, hit_of p (1 # 2)%Q)
          = Raise e).
Proof.
  destruct (indexed_point_as_hit (Some constant_encoder) accepting settings
              constant_encoder article_uuid (lit "Billing")
              (lit "How invoices work") ∅ empty_index eq_refl)
    as (p & _ & S & H & A).
  exists p. split; [apply S; reflexivity|]. split; [apply H|].
  apply A. left. apply lookup_empty.
Defined.

End IndexWitnesses.

(** ** The shape of a snippet *)

Section SnippetProps.

Import Search Inputs.

Lemma slice_whole {A} (l : list A) : slice l 0 (len l) = l.
Proof.
  unfold slice. pose proof (len_nonneg l). unfold norm_index.
  destruct (Z.ltb_spec 0 0); [lia|].
  destruct (Z.ltb_spec (len l) 0); [lia|].
  rewrite Z.min_id, (Z.min_l 0 (len l)) by lia.
  simpl (Z.to_nat 0). rewrite drop_0, Z.sub_0_r.
  unfold len. rewrite Nat2Z.id. apply firstn_all.
Qed.

Lemma leading_shape content_ max_length :
  0 <= max_length ->
  exists a b,
    0 <= a <= b /\ b <= len content_ /\ b - a <= max_length
    /\ leading content_ max_length
       = (if 0 <? a then lit "..." else [])
         ++ slice content_ a b
         ++ (if b <? len content_ then lit "..." else []).
Proof.
  intros Hm. unfold leading. pose proof (len_nonneg content_).
  destruct (Z.gtb_spec (len content_) max_length).
  - exists 0, max_length. repeat split; try lia.
    destruct (Z.ltb_spec max_length (len content_)); [|lia]. reflexivity.
  - exists 0, (len content_). repeat split; try lia.
    rewrite !Z.ltb_irrefl, slice_whole, app_nil_r. reflexivity.
Qed.

(** X24.  For a max_length that is not negative, every snippet is a run
    of at most max_length consecutive characters of the content, with an
    ellipsis in front exactly when the run does not start the content
    and an ellipsis behind exactly when it does not end it. *)
Theorem snippet_shape content_ query_ max_length :
  0 <= max_length ->
  exists a b,
    0 <= a <= b /\ b <= len content_ /\ b - a <= max_length
    /\ _generate_snippet content_ query_ max_length
       = (if 0 <? a then lit "..." else [])
         ++ slice content_ a b
         ++ (if b <? len content_ then lit "..." else []).
Proof.
  intros Hm. unfold _generate_snippet.
  destruct (negb (truthy content_) || negb (truthy query_));
    [apply leading_shape; exact Hm|].
  destruct (Z.eqb_spec (find (lower content_) (lower query_)) (-1)) as [|Hp];
    [apply leading_shape; exact Hm|].
  destruct (find_from_sound (lower content_) (lower query_) 0)
    as [E | (pre & post & E & R)]; [contradiction|].
  fold (find (lower content_) (lower query_)) in R.
  revert Hp R. generalize (find (lower content_) (lower query_)).
  intros pos Hp R.
  assert (len content_ = len pre + len (lower query_) + len post) as HL.
  { rewrite <- (length_lower content_), E, !len_app. lia. }
  pose proof (len_nonneg pre). pose proof (len_nonneg post).
  pose proof (len_nonneg (lower query_)).
  assert (0 <= max_length / 4) by (apply Z.div_pos; lia).
  exists (Z.max 0 (pos - max_length / 4)),
    (Z.min (len content_) (Z.max 0 (pos - max_length / 4) + max_length)).
  split; [lia|]. split; [lia|]. split; [lia|].
  rewrite Z.gtb_ltb.
  destruct (0 <? Z.max 0 (pos - max_length / 4));
    destruct (_ <? len content_);
    rewrite <- ?app_assoc, ?app_nil_r; reflexivity.
Qed.

(** The scenario of the specification: a window of 20 characters around
    "Settings". *)
Lemma snippet_shape_witness :
  exists a b,
    0 <= a <= b /\ b <= len password_content /\ b - a <= 20
    /\ _generate_snippet password_content (lit "Settings") 20
       = (if 0 <? a then lit "..." else [])
         ++ slice password_content a b
         ++ (if b <? len password_content then lit "..." else []).
Proof. apply (snippet_shape password_content (lit "Settings") 20). lia. Defined.

End SnippetProps.

(** ** The search endpoint *)

Section EndpointProps.

Import Search Index SearchService Api Inputs MoreInputs.

Local Open Scope Q_scope.

Lemma py_max_cases a b :
  (AI.py_max a b = a /\ b <= a) \/ (AI.py_max a b = b /\ a <= b).
Proof.
  unfold AI.py_max. destruct (Qle_bool b a) eqn:E.
  - left. split; [reflexivity | apply Qle_bool_iff; exact E].
  - right. split; [reflexivity|].
    assert (~ b <= a) by (rewrite <- Qle_bool_iff; congruence). lra.
Qed.

Lemma fold_max_spec xs : forall x,
  x <= fold_left AI.py_max xs x
  /\ Forall (fun y => y <= fold_left AI.py_max xs x) xs
  /\ In (fold_left AI.py_max xs x) (x :: xs).
Proof.
  induction xs as [|y xs IH]; intros x; cbn [fold_left].
  - split; [lra|]. split; [constructor | left; reflexivity].
  - destruct (IH (AI.py_max x y)) as (I1 & I2 & I3).
    destruct (py_max_cases x y) as [[E L] | [E L]]; rewrite E in *.
    + split; [exact I1|]. split.
      * constructor; [lra | exact I2].
      * destruct I3 as [I3|I3]; [left; exact I3 | right; right; exact I3].
    + split; [lra|]. split.
      * constructor; [exact I1 | exact I2].
      * right. destruct I3 as [I3|I3]; [left; exact I3 | right; exact I3].
Qed.

Lemma max_default_spec xs d :
  Forall (fun y => y <= max_default xs d) xs
  /\ (xs = [] -> max_default xs d = d)
  /\ (xs <> [] -> In (max_default xs d) xs).
Proof.
  destruct xs as [|x xs]; cbn [max_default].
  - split; [constructor|]. split; [reflexivity | contradiction].
  - destruct (fold_max_spec xs x) as (I1 & I2 & I3).
    split; [constructor; assumption|]. split; [discriminate|].
    intros _. exact I3.
Qed.

Variable model : option (pystr -> list float).
Variable nearest :
  gmap string PointStruct -> SearchArgs -> result (list ScoredPoint).
Variable cfg : Settings.

(** X25.  A 200 response of the article-search endpoint carries the
    results of the search service, their number as total, the limit as
    per_page, the page [offset // limit + 1] for a limit other than 0,
    and as max_score the largest score among the results, or 0 when
    there are none; the index's points are unchanged. *)
Theorem search_endpoint_response request w body w' :
  search_articles_endpoint model nearest cfg request w = (Response body, w') ->
  fst (search_articles model nearest cfg request w) = Ok (results body)
  /\ stored w' = stored w
  /\ total body = len (results body)
  /\ per_page body = limit request
  /\ limit request <> 0%Z
  /\ page body = (offset request / limit request + 1)%Z
  /\ Forall (fun r => score r <= max_score body) (results body)
  /\ (results body = [] -> max_score body = 0)
  /\ (results body <> [] ->
      exists r, In r (results body) /\ max_score body = score r).
Proof.
  unfold search_articles_endpoint, floordiv.
  pose proof (search_articles_stored model nearest cfg request w) as St.
  destruct (search_articles model nearest cfg request w) as [[rs|e] w1];
    [|discriminate].
  destruct (Z.eqb_spec (limit request) 0); [discriminate|].
  intros [= <- <-]. cbn [fst snd results total per_page page max_score] in *.
  destruct (max_default_spec (map score rs) 0) as (M1 & M2 & M3).
  repeat split; try assumption; try reflexivity.
  - apply List.Forall_forall. intros r Hr.
    rewrite List.Forall_forall in M1. apply M1. apply in_map. exact Hr.
  - intros ->. apply M2. reflexivity.
  - intros Hne.
    assert (map score rs <> []) as Hm by (destruct rs; [contradiction | discriminate]).
    apply M3, in_map_iff in Hm. destruct Hm as (r & E & Hr).
    exists r. split; [exact Hr | symmetry; exact E].
Qed.

(** X26.  The article-search endpoint answers a failure with status 500
    only, and it answers a request whose limit is 0 with a 500 whatever
    the search returned. *)
Theorem search_endpoint_failures request w :
  (forall code detail w',
     search_articles_endpoint model nearest cfg request w
     = (HTTPException code detail, w') -> code = 500%Z)
  /\ (limit request = 0%Z ->
      exists detail w',
        search_articles_endpoint model nearest cfg request w
        = (HTTPException 500 detail, w')).
Proof.
  unfold search_articles_endpoint, floordiv. split.
  - intros code detail w'.
    destruct (search_articles model nearest cfg request w) as [[rs|e] w1].
    + destruct (limit request =? 0)%Z; [|discriminate].
      intros [= <- _ _]. reflexivity.
    + intros [= <- _ _]. reflexivity.
  - intros ->.
    destruct (search_articles model nearest cfg request w) as [[rs|e] w1];
      cbn; eauto.
Qed.

End EndpointProps.

Section EndpointWitnesses.

Import Search Index SearchService Api Inputs MoreInputs.

(** One hit at offset 20 with limit 10: page 3. *)
Lemma search_endpoint_response_witness :
  exists body w',
    search_articles_endpoint (Some constant_encoder) (fixed_index [full_hit])
      settings sample_search_request empty_index = (Response body, w')
    /\ total body = len (results body)
    /\ per_page body = 10 /\ page body = 3.
Proof.
  destruct (search_articles_endpoint (Some constant_encoder)
              (fixed_index [full_hit]) settings sample_search_request
              empty_index) as [[body|code detail] w'] eqn:E;
    [|vm_compute in E; discriminate E].
  exists body, w'. split; [reflexivity|].
  destruct (search_endpoint_response (Some constant_encoder)
              (fixed_index [full_hit]) settings sample_search_request
              empty_index body w' E) as (_ & _ & T & PP & _ & P & _).
  split; [exact T|]. split; [exact PP | exact P].
Defined.

(** A search that succeeds, asked with limit 0. *)
Lemma search_endpoint_failures_witness :
  exists detail w',
    search_articles_endpoint (Some constant_encoder) (fixed_index [full_hit])
      settings zero_limit_request empty_index
    = (HTTPException 500 detail, w').
Proof.
  apply (search_endpoint_failures (Some constant_encoder)
           (fixed_index [full_hit]) settings zero_limit_request empty_index).
  reflexivity.
Defined.

End EndpointWitnesses.
